(** * RESGraph: the network structure of a Reference Energy System

    A shallow embedding of [resnet.py]: the class [ResGraph], a
    [networkx.DiGraph] extended with the model structure read from a
    skeleton JSON file, and the methods that add technologies (nodes) and
    fuels (arrows) decorated with the parameters and variables the
    structure declares for an index.

    Python values are a small inductive type, exceptions are an explicit
    result, and every method is a computation in a state-and-exception
    monad over the object it is called on. *)

From Stdlib Require Import ZArith.
From stdpp Require Import gmap strings list fin_maps.

Set Warnings "-register-all".
Local Open Scope string_scope.

(** ** Python values, exceptions, results *)

Module Py.

(** The values [json.load] produces, which are also the values the
    methods store as attributes.  A [dict] is the list of its items in
    insertion order, its keys being strings as in every JSON object; a
    loaded dict holds each key once, and a lookup takes the first item of
    a key.  A float is carried as its binary64 image and never inspected. *)
Inductive value : Type :=
| VNone
| VBool (b : bool)
| VInt (z : Z)
| VFloat (bits : Z)
| VStr (s : string)
| VList (elems : list value)
| VDict (items : list (string * value)).

Inductive exn : Type :=
| KeyError (key : string)
| TypeError
| AttributeError
| FileNotFoundError
| OSError
| JSONDecodeError.

#[global] Instance exn_eq_dec : EqDecision exn.
Proof. solve_decision. Defined.

Inductive result (A : Type) : Type :=
| Ok (a : A)
| Raise (e : exn).
Arguments Ok {A} a.
Arguments Raise {A} e.

Definition is_ok {A} (r : result A) : bool :=
  match r with Ok _ => true | Raise _ => false end.

(** A keyword-argument dictionary, and the attribute dictionary of a node
    or of an edge: string keys, each held once. *)
Abbreviation attrs := (gmap string value).

(** [k in d] for a dictionary with string keys. *)
Definition has_key {A} (d : gmap string A) (k : string) : bool :=
  match d !! k with Some _ => true | None => false end.

(** [d.get(k)] on the items of a dict. *)
Fixpoint assoc (k : string) (items : list (string * value)) : option value :=
  match items with
  | [] => None
  | (k', v) :: rest => if String.eqb k k' then Some v else assoc k rest
  end.

(** [o[k]] for a string key [k]. *)
Definition getitem (o : value) (k : string) : result value :=
  match o with
  | VDict items =>
      match assoc k items with
      | Some v => Ok v
      | None => Raise (KeyError k)
      end
  | _ => Raise TypeError
  end.

(** [o.items()]: only a dict has the method. *)
Definition items_of (o : value) : result (list (string * value)) :=
  match o with
  | VDict items => Ok items
  | _ => Raise AttributeError
  end.

(** [x == e] for a string [x]: a string equals only the same string. *)
Definition str_eq (x : string) (e : value) : bool :=
  match e with
  | VStr s => String.eqb x s
  | _ => false
  end.

(** [x in s] for two strings is the substring test. *)
Fixpoint substring_of (x s : string) : bool :=
  String.prefix x s ||
  match s with
  | EmptyString => false
  | String _ s' => substring_of x s'
  end.

(** [x in c] for a string [x]: membership in a list, key test on a dict,
    substring test on a string; the other values are not iterable. *)
Definition contains (c : value) (x : string) : result bool :=
  match c with
  | VList elems => Ok (existsb (str_eq x) elems)
  | VDict items => Ok (existsb (String.eqb x) items.*1)
  | VStr s => Ok (substring_of x s)
  | _ => Raise TypeError
  end.

(** Binding of the call [f(p1, .., pn, k1=v1, .., **d1, **d2)] to a
    function [def f(p1, .., pn, **attr)]: the keyword dictionary is built
    left to right and a repeated keyword is a [TypeError], as is a
    keyword that names one of the positional parameters already bound.
    The result is what [attr] receives. *)
Fixpoint merge_stars (acc : attrs) (stars : list attrs) : result attrs :=
  match stars with
  | [] => Ok acc
  | d :: rest =>
      if decide (d ##ₘ acc) then merge_stars (d ∪ acc) rest
      else Raise TypeError
  end.

Definition call_kwargs (positional : list string)
    (explicit : list (string * value)) (stars : list attrs) : result attrs :=
  match merge_stars (list_to_map explicit) stars with
  | Ok kw =>
      if existsb (has_key kw) positional then Raise TypeError
      else Ok kw
  | Raise e => Raise e
  end.

(** *** The state-and-exception monad of a method call *)

Definition M (S A : Type) : Type := S → result A * S.

Definition ret {S A} (a : A) : M S A := λ s, (Ok a, s).
Definition bind {S A B} (m : M S A) (k : A → M S B) : M S B :=
  λ s, match m s with
       | (Ok a, s') => k a s'
       | (Raise e, s') => (Raise e, s')
       end.
Definition raise {S A} (e : exn) : M S A := λ s, (Raise e, s).
Definition lift {S A} (r : result A) : M S A := λ s, (r, s).
Definition gets {S A} (f : S → A) : M S A := λ s, (Ok (f s), s).
Definition modify {S} (f : S → S) : M S unit := λ s, (Ok tt, f s).

(** [try: m except e: h] *)
Definition try_except {S A} (m : M S A) (e : exn) (h : M S A) : M S A :=
  λ s, match m s with
       | (Raise e', s') => if decide (e' = e) then h s' else (Raise e', s')
       | r => r
       end.

(** Run a method of a part of the object (the base class) on the whole. *)
Definition zoom {S T A} (get : S → T) (set : T → S → S) (m : M T A) : M S A :=
  λ s, let (r, t) := m (get s) in (r, set t s).

Definition run {S A} (m : M S A) (s : S) : result A := fst (m s).
Definition exec {S A} (m : M S A) (s : S) : S := snd (m s).

End Py.

Import Py.

#[global] Instance M_ret {S} : MRet (M S) := λ A, ret.
#[global] Instance M_bind {S} : MBind (M S) := λ A B k m, bind m k.

(** ** The directed-graph container

    [ResGraph] inherits from [networkx.DiGraph], a library class.  The two
    methods it calls are given here as networkx defines them, over the
    three dictionaries a [DiGraph] keeps: the node attributes [_node], and
    the successor and predecessor adjacency [_succ] (also named [_adj]) and
    [_pred].  Node labels are strings, as the signatures of [resnet.py]
    declare, so the library's test for a [None] node never fires.  The
    graph-level attribute dictionary and the cache the library clears after
    each change are not read by any method of [ResGraph] and are left out.

    The dictionaries are finite maps: they keep which keys are present and
    with what values, which is what subscripting, [in], [len] and [==]
    read of a Python dict.  The order in which the keys were inserted,
    which iteration over a Python dict follows, is not kept; two graphs
    equal here can list their nodes and edges in different orders. *)

Module DiGraph.

Record t : Type := mk {
  _node : gmap string attrs;
  _succ : gmap string (gmap string attrs);
  _pred : gmap string (gmap string attrs)
}.

Definition set_node (f : gmap string attrs → gmap string attrs) (g : t) : t :=
  mk (f (_node g)) (_succ g) (_pred g).
Definition set_succ (f : gmap string (gmap string attrs) → gmap string (gmap string attrs))
    (g : t) : t :=
  mk (_node g) (f (_succ g)) (_pred g).
Definition set_pred (f : gmap string (gmap string attrs) → gmap string (gmap string attrs))
    (g : t) : t :=
  mk (_node g) (_succ g) (f (_pred g)).

(** [DiGraph.__init__()] with no incoming data. *)
Definition __init__ : M t unit :=
  modify (λ _, mk ∅ ∅ ∅).

(** [self._node[n]], [self._succ[n]], [self._pred[n]]. *)
Definition subscript {A} (field : t → gmap string A) (n : string) : M t A :=
  d ← gets field;
  match d !! n with
  | Some x => ret x
  | None => raise (KeyError n)
  end.

(** [add_node(node_for_adding, **attr)]:
<<
    if node_for_adding not in self._succ:
        self._succ[node_for_adding] = self.adjlist_inner_dict_factory()
        self._pred[node_for_adding] = self.adjlist_inner_dict_factory()
        attr_dict = self._node[node_for_adding] = self.node_attr_dict_factory()
        attr_dict.update(attr)
    else:  # update attr even if node already exists
        self._node[node_for_adding].update(attr)
>>
    A new node gets empty adjacency and the attributes; an existing node
    has its attributes updated, new values replacing old ones. *)
Definition add_node (node_for_adding : string) (attr : attrs) : M t unit :=
  succ ← gets _succ;
  if negb (has_key succ node_for_adding) then
    modify (set_succ <[node_for_adding := ∅]>);;
    modify (set_pred <[node_for_adding := ∅]>);;
    modify (set_node <[node_for_adding := attr ∪ ∅]>)
  else
    attr_dict ← subscript _node node_for_adding;
    modify (set_node <[node_for_adding := attr ∪ attr_dict]>).

(** The block of [add_edge] that makes an endpoint a node:
<<
    if u not in self._succ:
        self._succ[u] = self.adjlist_inner_dict_factory()
        self._pred[u] = self.adjlist_inner_dict_factory()
        self._node[u] = self.node_attr_dict_factory()
>> *)
Definition touch_node (u : string) : M t unit :=
  succ ← gets _succ;
  if negb (has_key succ u) then
    modify (set_succ <[u := ∅]>);;
    modify (set_pred <[u := ∅]>);;
    modify (set_node <[u := ∅]>)
  else ret tt.

(** [add_edge(u_of_edge, v_of_edge, **attr)], after the two blocks above:
<<
    datadict = self._adj[u].get(v, self.edge_attr_dict_factory())
    datadict.update(attr)
    self._succ[u][v] = datadict
    self._pred[v][u] = datadict
>>
    The data dictionary of an existing edge is updated in place and is the
    one object both adjacency dictionaries hold, so both entries are
    written with the updated value. *)
Definition add_edge (u_of_edge v_of_edge : string) (attr : attrs) : M t unit :=
  let u := u_of_edge in
  let v := v_of_edge in
  touch_node u;;
  touch_node v;;
  adj_u ← subscript _succ u;
  let datadict := attr ∪ default ∅ (adj_u !! v) in
  succ_u ← subscript _succ u;
  modify (set_succ <[u := <[v := datadict]> succ_u]>);;
  pred_v ← subscript _pred v;
  modify (set_pred <[v := <[u := datadict]> pred_v]>).

(** *** Queries *)

(** [n in G] *)
Definition has_node (g : t) (n : string) : bool := has_key (_node g) n.

(** [G.nodes[n]], [None] standing for the [KeyError]. *)
Definition node_attrs (g : t) (n : string) : option attrs := _node g !! n.

(** [G.number_of_nodes()] *)
Definition number_of_nodes (g : t) : nat := size (_node g).

(** [G.get_edge_data(u, v)], [None] when there is no such edge. *)
Definition get_edge_data (g : t) (u v : string) : option attrs :=
  nbrs ← _succ g !! u; nbrs !! v.

(** [G.has_edge(u, v)] *)
Definition has_edge (g : t) (u v : string) : bool :=
  match _succ g !! u with
  | Some nbrs => has_key nbrs v
  | None => false
  end.

(** [len(G.edges)]: the out-degrees summed over the successor dictionary. *)
Definition number_of_edges (g : t) : nat :=
  map_fold (λ _ (nbrs : gmap string attrs) n, size nbrs + n) 0 (_succ g).

(** The three dictionaries describe one graph: they have the same keys,
    and the predecessor dictionary mirrors the successor dictionary. *)
Definition consistent (g : t) : Prop :=
  dom (_succ g) =@{gset string} dom (_node g) ∧
  dom (_pred g) =@{gset string} dom (_node g) ∧
  ∀ u v, (nbrs ← _succ g !! u; nbrs !! v) = (nbrs ← _pred g !! v; nbrs !! u).

End DiGraph.

(** ** The class [ResGraph] *)

Module ResGraph.

(** The object: the two dataclass fields and the inherited graph. *)
Record t : Type := mk {
  skeleton_path : string;
  structure : value;
  base : DiGraph.t
}.

(** What a method can touch: the object, the files it may open (a path
    mapped to the outcome of opening and parsing it; an absent path is a
    missing file) and the lines printed so far. *)
Record world : Type := World {
  self : t;
  files : gmap string (result value);
  stdout : list string
}.

Definition set_self (f : t → t) (w : world) : world :=
  World (f (self w)) (files w) (stdout w).
Definition set_skeleton_path (p : string) (o : t) : t :=
  mk p (structure o) (base o).
Definition set_structure (s : value) (o : t) : t :=
  mk (skeleton_path o) s (base o).
Definition set_base (g : DiGraph.t) (o : t) : t :=
  mk (skeleton_path o) (structure o) g.

(** A call of an inherited [DiGraph] method on [self]. *)
Definition super {A} (m : M DiGraph.t A) : M world A :=
  zoom (λ w, base (self w)) (λ g, set_self (set_base g)) m.

(** [with open(path, "r") as f: json.load(f)] *)
Definition open_json_load (path : string) : M world value :=
  fs ← gets files;
  match fs !! path with
  | None => raise FileNotFoundError
  | Some r => lift r
  end.

Definition print (line : string) : M world unit :=
  modify (λ w, World (self w) (files w) (stdout w ++ [line])).

Definition load_structure : M world value :=
  try_except
    (path ← gets (λ w, skeleton_path (self w));
     skeleton_data ← open_json_load path;
     mret skeleton_data)
    FileNotFoundError
    (path ← gets (λ w, skeleton_path (self w));
     print ("Warning: " +:+ path +:+ " not found.");;
     mret (VDict [])).

Definition __post_init__ : M world unit :=
  super DiGraph.__init__;;
  s ← load_structure;
  modify (set_self (set_structure s)).

(** The [__init__] the dataclass decorator generates from the two fields. *)
Definition __init__ (skeleton_path : option string) : M world unit :=
  modify (set_self (set_skeleton_path
            (default "./Structure/skeleton.json" skeleton_path)));;
  modify (set_self (set_structure (VDict [])));;
  __post_init__.

(** [ResGraph(skeleton_path)] in a world with the given files. *)
Definition new (fs : gmap string (result value)) (skeleton_path : option string)
    : result unit * world :=
  __init__ skeleton_path (World (mk EmptyString VNone (DiGraph.mk ∅ ∅ ∅)) fs []).

(** The comprehension
    [{name: ft['default'] for name, ft in items if index in ft['indices']}]:
    for each item the condition is evaluated first, the value only when it
    holds; a later item overwrites an earlier one of the same name. *)
Fixpoint dict_comprehension (index : string) (items : list (string * value))
    (acc : attrs) : result attrs :=
  match items with
  | [] => Ok acc
  | (name, ft) :: rest =>
      match getitem ft "indices" with
      | Raise e => Raise e
      | Ok indices =>
          match contains indices index with
          | Raise e => Raise e
          | Ok false => dict_comprehension index rest acc
          | Ok true =>
              match getitem ft "default" with
              | Raise e => Raise e
              | Ok d => dict_comprehension index rest (<[name := d]> acc)
              end
          end
      end
  end.

Definition get_params (index : string) : M world attrs :=
  st ← gets (λ w, structure (self w));
  params ← lift (getitem st "params");
  items ← lift (items_of params);
  lift (dict_comprehension index items ∅).

Definition get_variables (index : string) : M world attrs :=
  st ← gets (λ w, structure (self w));
  vars ← lift (getitem st "variables");
  items ← lift (items_of vars);
  lift (dict_comprehension index items ∅).

Definition add_technology (tech_label tech_type : string) (layer : Z)
    (index : option string) : M world unit :=
  let index := default "t" index in
  node_params ← get_params index;
  node_vars ← get_variables index;
  attr ← lift (call_kwargs ["self"; "node_for_adding"]
                 [("tech_type", VStr tech_type);
                  ("layer", VInt layer);
                  ("index", VStr index)]
                 [node_params; node_vars]);
  super (DiGraph.add_node tech_label attr).

Definition add_fuel (tech_from tech_to fuel_label fuel_type : string)
    (index : option string) : M world unit :=
  let index := default "f" index in
  edge_params ← get_params index;
  edge_vars ← get_variables index;
  attr ← lift (call_kwargs ["self"; "u_of_edge"; "v_of_edge"]
                 [("fuel_label", VStr fuel_label);
                  ("fuel_type", VStr fuel_type);
                  ("index", VStr index)]
                 [edge_params; edge_vars]);
  super (DiGraph.add_edge tech_from tech_to attr).

(** The index registrations, which do nothing yet. *)
Definition add_region (index : option string) : M world unit := mret tt.
Definition add_emission (index : option string) : M world unit := mret tt.
Definition add_year (index : option string) : M world unit := mret tt.
Definition add_timeslice (index : option string) : M world unit := mret tt.
Definition add_mode_of_operation (index : option string) : M world unit := mret tt.
Definition add_season (index : option string) : M world unit := mret tt.
Definition add_daytype (index : option string) : M world unit := mret tt.
Definition add_dailytimebracket (index : option string) : M world unit := mret tt.
Definition add_storage (index : option string) : M world unit := mret tt.

(** The graph of a world, for the queries of [DiGraph]. *)
Definition graph (w : world) : DiGraph.t := base (self w).

End ResGraph.

Import ResGraph.

(** ** The schema as the specification words it

    A skeleton document has two top-level collections, [params] and
    [variables]; each maps a name to an entry with a list of index codes
    under [indices] and a value under [default]. *)

Module Schema.

Definition entry_ok (e : value) : bool :=
  match e with
  | VDict fields =>
      match assoc "indices" fields, assoc "default" fields with
      | Some (VList _), Some _ => true
      | _, _ => false
      end
  | _ => false
  end.

(** A collection is a dict of entries; as a dict it holds each name once. *)
Definition collection_ok (c : value) : bool :=
  match c with
  | VDict items => forallb (λ it, entry_ok it.2) items && bool_decide (NoDup items.*1)
  | _ => false
  end.

Definition well_formed (st : value) : bool :=
  match st with
  | VDict top =>
      match assoc "params" top, assoc "variables" top with
      | Some ps, Some vs => collection_ok ps && collection_ok vs
      | _, _ => false
      end
  | _ => false
  end.

(** The entries of one of the two collections. *)
Definition collection (key : string) (st : value) : list (string * value) :=
  match st with
  | VDict top =>
      match assoc key top with
      | Some (VDict items) => items
      | _ => []
      end
  | _ => []
  end.

(** [declares items name index d]: the collection has an entry [name]
    whose declared indices include [index] and whose default is [d]. *)
Definition declares (items : list (string * value)) (name index : string)
    (d : value) : Prop :=
  ∃ fields indices,
    (name, VDict fields) ∈ items ∧
    assoc "indices" fields = Some (VList indices) ∧
    VStr index ∈ indices ∧
    assoc "default" fields = Some d.

End Schema.

(** ** Auxiliary definitions

    [query key index st] is what [get_params] ([key] = params) and
    [get_variables] ([key] = variables) compute from the loaded structure. *)

Definition query (key index : string) (st : value) : result attrs :=
  match getitem st key with
  | Raise e => Raise e
  | Ok c =>
      match items_of c with
      | Raise e => Raise e
      | Ok items => dict_comprehension index items ∅
      end
  end.


(** The graph after the block [if u not in self._succ: ...]. *)
Definition touched (u : string) (g : DiGraph.t) : DiGraph.t :=
  if negb (has_key (DiGraph._succ g) u) then
    DiGraph.mk (<[u := ∅]> (DiGraph._node g))
               (<[u := ∅]> (DiGraph._succ g))
               (<[u := ∅]> (DiGraph._pred g))
  else g.

(** The keyword attributes [add_technology] passes to [add_node], and
    [add_fuel] to [add_edge], when no keyword is repeated. *)
Definition technology_attrs (tech_type : string) (layer : Z) (index : string)
    (ps vs : attrs) : attrs :=
  <["tech_type" := VStr tech_type]>
    (<["layer" := VInt layer]> (<["index" := VStr index]> (ps ∪ vs))).

Definition fuel_attrs (fuel_label fuel_type index : string) (ps vs : attrs) : attrs :=
  <["fuel_label" := VStr fuel_label]>
    (<["fuel_type" := VStr fuel_type]> (<["index" := VStr index]> (ps ∪ vs))).

(** No keyword is passed twice: the parameters and the variables selected
    for the index share no name with each other, with the keywords written
    out in the call, or with the callee's own parameters. *)
Definition distinct_keywords (fixed : list string) (ps vs : attrs) : Prop :=
  ps ##ₘ vs ∧ Forall (λ k, ps !! k = None ∧ vs !! k = None) fixed.

Definition add_node_names : list string :=
  ["self"; "node_for_adding"; "tech_type"; "layer"; "index"].

Definition add_edge_names : list string :=
  ["self"; "u_of_edge"; "v_of_edge"; "fuel_label"; "fuel_type"; "index"].

(** ** Example skeletons *)

Definition default_path : string := "./Structure/skeleton.json".

(** The world after [ResGraph()] when the default path holds [doc]. *)
Definition world_of (doc : value) : world :=
  (new {[default_path := Ok doc]} None).2.

(** One parameter, [Capacity], declared for the index [technology]. *)
Definition capacity_technology_skeleton : value :=
  VDict [("params",
          VDict [("Capacity",
                  VDict [("indices", VList [VStr "technology"]);
                         ("default", VInt 0)])]);
         ("variables", VDict [])].

(** The same parameter declared for the indices [t] and [f], and one
    variable for [t]. *)
Definition capacity_skeleton : value :=
  VDict [("params",
          VDict [("Capacity",
                  VDict [("indices", VList [VStr "r"; VStr "t"; VStr "f"]);
                         ("default", VInt 0)])]);
         ("variables",
          VDict [("NewCapacity",
                  VDict [("indices", VList [VStr "r"; VStr "t"; VStr "y"]);
                         ("default", VNone)])])].

(** A parameter that is named like a keyword of the calls. *)
Definition layer_skeleton : value :=
  VDict [("params",
          VDict [("layer",
                  VDict [("indices", VList [VStr "t"; VStr "x"]);
                         ("default", VInt 7)]);
                 ("fuel_type",
                  VDict [("indices", VList [VStr "f"]);
                         ("default", VStr "any")])]);
         ("variables", VDict [])].

(** A parameter named [layer] that applies to the index [x] only. *)
Definition layer_x_skeleton : value :=
  VDict [("params",
          VDict [("layer",
                  VDict [("indices", VList [VStr "x"]);
                         ("default", VInt 7)])]);
         ("variables", VDict [])].

(** The world after [PWRGEO] and [PWRTRN] were added as technologies and
    joined by a fuel, over [capacity_skeleton]. *)
Definition two_technologies : world :=
  exec (add_technology "PWRGEO" "Geothermal Power Plant" 0 None;;
        add_technology "PWRTRN" "Transmission of Electricity" 1 None;;
        add_fuel "PWRGEO" "PWRTRN" "ELC001" "Electricity before Transmission" None)
       (world_of capacity_skeleton).

(** The scenario of the specification: [PWRGEO] added over the skeleton
    that declares [Capacity] for [technology]. *)
Definition after_pwrgeo : world :=
  exec (add_technology "PWRGEO" "Geothermal Power Plant" 0 None)
       (world_of capacity_technology_skeleton).

(** A fuel added over [capacity_skeleton] between two labels that are not
    nodes yet. *)
Definition after_fuel : world :=
  exec (add_fuel "PWRGEO" "PWRTRN" "ELC001" "Electricity before Transmission" None)
       (world_of capacity_skeleton).

(** [PWRGEO] added under the default index over [layer_x_skeleton]. *)
Definition after_pwrgeo_x : world :=
  exec (add_technology "PWRGEO" "Geothermal Power Plant" 0 None)
       (world_of layer_x_skeleton).

(** ** Calls and scripts

    The two mutating methods as values, so that a sequence of statements
    [resnet.add_technology(...)], [resnet.add_fuel(...)] is a list. *)

Inductive call : Type :=
| Technology (tech_label tech_type : string) (layer : Z) (index : option string)
| Fuel (tech_from tech_to fuel_label fuel_type : string) (index : option string).

Definition perform (c : call) : M world unit :=
  match c with
  | Technology tech_label tech_type layer index =>
      add_technology tech_label tech_type layer index
  | Fuel tech_from tech_to fuel_label fuel_type index =>
      add_fuel tech_from tech_to fuel_label fuel_type index
  end.

(** Statements one after another; an exception ends the script. *)
Fixpoint script (cs : list call) : M world unit :=
  match cs with
  | [] => mret tt
  | c :: rest => perform c;; script rest
  end.

(** The statements of [main()], in the order of the source. *)
Definition main_calls : list call :=
  [ Technology "PWRHYD" "Hydroelectric Power Plant" 0 None;
    Technology "PWRGEO" "Geothermal Power Plant" 0 None;
    Technology "PWRSOL001" "Photovoltaic Power Plant" 0 None;
    Technology "PWRDSL" "Thermal Power Plant - Diesel" 0 None;
    Technology "PWRBIO" "Biomass Power Plant" 0 None;
    Technology "PWRSOL002" "Decentralised Solar PV" 1 None;
    Technology "PWRTRN" "Transmission of Electricity" 1 None;
    Technology "PWRDIS" "Distribution of Electricity" 2 None;
    Technology "DEMRESELC" "Residential Demand for Electricity" 3 None;
    Technology "DEMCOMELC" "Commercial Demand for Electricity" 3 None;
    Technology "DEMINDELC" "Industrial Demand for Electricity" 3 None;
    Technology "DEMTRAELC" "Electric Vehicles" 3 None;
    Fuel "PWRHYD" "PWRTRN" "ELC001" "Electricity before Transmission" None;
    Fuel "PWRGEO" "PWRTRN" "ELC001" "Electricity before Transmission" None;
    Fuel "PWRSOL001" "PWRTRN" "ELC001" "Electricity before Transmission" None;
    Fuel "PWRDSL" "PWRTRN" "ELC001" "Electricity before Transmission" None;
    Fuel "PWRBIO" "PWRTRN" "ELC001" "Electricity before Transmission" None;
    Fuel "PWRTRN" "PWRDIS" "ELC002" "Electricity after Transmission" None;
    Fuel "PWRSOL002" "PWRDIS" "ELC002" "Electricity after Transmissions" None;
    Fuel "PWRDIS" "DEMRESELC" "ELC003" "Electricity for Residential Consumers" None;
    Fuel "PWRDIS" "DEMCOMELC" "ELC003" "Electricity for Commercial Consumers" None;
    Fuel "PWRDIS" "DEMINDELC" "ELC003" "Electricity for Industrial Consumers" None;
    Fuel "PWRDIS" "DEMTRAELC" "ELC003" "Electricity for EV" None ].

(** [main()]: build the graph, run the statements, return the graph. *)
Definition main (fs : gmap string (result value)) : result ResGraph.t * world :=
  match new fs None with
  | (Ok _, w) => (script main_calls;; gets self) w
  | (Raise e, w) => (Raise e, w)
  end.

(** The states a program can reach: a constructed graph, then any calls
    of the two methods, whether they return or raise. *)
Inductive reachable (fs : gmap string (result value)) (path : option string)
    : world → Prop :=
| reachable_new w :
    new fs path = (Ok tt, w) → reachable fs path w
| reachable_call w c :
    reachable fs path w → reachable fs path (exec (perform c) w).

(** ** Auxiliary definitions for calls *)

(** What a call asks of the container once its keywords are bound. *)
Inductive graph_op : Type :=
| AddNode (n : string) (attr : attrs)
| AddEdge (u v : string) (attr : attrs).

Definition apply_op (o : graph_op) : M DiGraph.t unit :=
  match o with
  | AddNode n attr => DiGraph.add_node n attr
  | AddEdge u v attr => DiGraph.add_edge u v attr
  end.

(** The part of a call that runs before the container is touched: the two
    schema queries and the binding of the keywords. *)
Definition plan (st : value) (c : call) : result graph_op :=
  match c with
  | Technology l ty lay idx =>
      match query "params" (default "t" idx) st with
      | Raise e => Raise e
      | Ok ps =>
          match query "variables" (default "t" idx) st with
          | Raise e => Raise e
          | Ok vs =>
              match call_kwargs ["self"; "node_for_adding"]
                      [("tech_type", VStr ty); ("layer", VInt lay);
                       ("index", VStr (default "t" idx))] [ps; vs] with
              | Raise e => Raise e
              | Ok attr => Ok (AddNode l attr)
              end
          end
      end
  | Fuel a b fl ft idx =>
      match query "params" (default "f" idx) st with
      | Raise e => Raise e
      | Ok ps =>
          match query "variables" (default "f" idx) st with
          | Raise e => Raise e
          | Ok vs =>
              match call_kwargs ["self"; "u_of_edge"; "v_of_edge"]
                      [("fuel_label", VStr fl); ("fuel_type", VStr ft);
                       ("index", VStr (default "f" idx))] [ps; vs] with
              | Raise e => Raise e
              | Ok attr => Ok (AddEdge a b attr)
              end
          end
      end
  end.

(** Two calls that do not write the same node or the same edge. *)
Definition independent (c1 c2 : call) : Prop :=
  match c1, c2 with
  | Technology l1 _ _ _, Technology l2 _ _ _ => l1 ≠ l2
  | Fuel a1 b1 _ _ _, Fuel a2 b2 _ _ _ => (a1, b1) ≠ (a2, b2)
  | _, _ => True
  end.

Definition op_independent (o1 o2 : graph_op) : Prop :=
  match o1, o2 with
  | AddNode n1 _, AddNode n2 _ => n1 ≠ n2
  | AddEdge u1 v1 _, AddEdge u2 v2 _ => (u1, v1) ≠ (u2, v2)
  | _, _ => True
  end.

(** Every fuel of the script joins labels that are nodes already or were
    added as technologies earlier in the script. *)
Fixpoint technologies_first (known : gset string) (cs : list call) : bool :=
  match cs with
  | [] => true
  | Technology l _ _ _ :: rest => technologies_first ({[l]} ∪ known) rest
  | Fuel a b _ _ _ :: rest =>
      bool_decide (a ∈ known) && bool_decide (b ∈ known)
      && technologies_first known rest
  end.

(** The labels a script makes nodes, the ordered pairs it makes edges,
    and how many of these pairs are new, over what is known already. *)
Fixpoint script_nodes (known : gset string) (cs : list call) : gset string :=
  match cs with
  | [] => known
  | Technology l _ _ _ :: rest => script_nodes ({[l]} ∪ known) rest
  | Fuel a b _ _ _ :: rest => script_nodes ({[a]} ∪ ({[b]} ∪ known)) rest
  end.

Fixpoint script_edges (known : gset (string * string)) (cs : list call)
    : gset (string * string) :=
  match cs with
  | [] => known
  | Technology _ _ _ _ :: rest => script_edges known rest
  | Fuel a b _ _ _ :: rest => script_edges ({[(a, b)]} ∪ known) rest
  end.

Fixpoint new_edges (known : gset (string * string)) (cs : list call) : nat :=
  match cs with
  | [] => 0
  | Technology _ _ _ _ :: rest => new_edges known rest
  | Fuel a b _ _ _ :: rest =>
      if bool_decide ((a, b) ∈ known) then new_edges known rest
      else Datatypes.S (new_edges ({[(a, b)]} ∪ known) rest)
  end.

(** The nodes and the edges of a graph as finite sets. *)
Definition node_set (g : DiGraph.t) : gset string := dom (DiGraph._node g).

Definition is_edge_set (g : DiGraph.t) (E : gset (string * string)) : Prop :=
  ∀ x y, DiGraph.has_edge g x y = true ↔ (x, y) ∈ E.

(** An entry of a collection that is a dict with a list under [indices]. *)
Definition indices_listed (e : value) : bool :=
  match e with
  | VDict fields =>
      match assoc "indices" fields with
      | Some (VList _) => true
      | _ => false
      end
  | _ => false
  end.

(** An entry whose [indices] can stand on the right of [in]: a dict with
    a list, a dict or a string under that key. *)
Definition indices_usable (e : value) : bool :=
  match e with
  | VDict fields =>
      match assoc "indices" fields with
      | Some (VList _) | Some (VDict _) | Some (VStr _) => true
      | _ => false
      end
  | _ => false
  end.

(** A skeleton whose entry gives its indices as one string, not a list. *)
Definition string_indices_skeleton : value :=
  VDict [("params",
          VDict [("Capacity",
                  VDict [("indices", VStr "technology");
                         ("default", VInt 0)])]);
         ("variables", VDict [])].

(** A skeleton with an entry that has no default. *)
Definition no_default_skeleton : value :=
  VDict [("params",
          VDict [("Capacity",
                  VDict [("indices", VList [VStr "t"]); ("default", VInt 0)]);
                 ("Demand",
                  VDict [("indices", VList [VStr "f"; VStr "y"])])]);
         ("variables", VDict [])].

(** A skeleton with an entry that has no indices. *)
Definition no_indices_skeleton : value :=
  VDict [("params",
          VDict [("Capacity",
                  VDict [("indices", VList [VStr "t"]); ("default", VInt 0)]);
                 ("Demand", VDict [("default", VInt 0)])]);
         ("variables", VDict [])].

(** Every node carries the attributes of a technology. *)
Definition all_technologies (g : DiGraph.t) : Prop :=
  ∀ n a, DiGraph.node_attrs g n = Some a →
    is_Some (a !! "tech_type") ∧ is_Some (a !! "layer").

(** ** Proof automation *)

Ltac unfold_monad :=
  unfold mbind, mret, M_bind, M_ret, bind, ret, raise, lift, gets, modify,
    try_except, zoom, run, exec in *.

Ltac in_list := apply list_elem_of_In; simpl; auto 10.

Ltac by_computation := vm_compute; reflexivity.

Ltac decide_by_computation := apply (bool_decide_unpack _); vm_compute; exact I.
(** ** Reasoning about method calls *)

Section Monad.
Context {S : Type}.

Lemma bind_ok {A B} (m : M S A) (k : A → M S B) s a s' :
  m s = (Ok a, s') → (m ≫= k) s = k a s'.
Proof. unfold_monad. by intros ->. Qed.

Lemma bind_raise {A B} (m : M S A) (k : A → M S B) s e s' :
  m s = (Raise e, s') → (m ≫= k) s = (Raise e, s').
Proof. unfold_monad. by intros ->. Qed.

End Monad.

(** *** Membership and lookup on the items of a dict *)

Lemma str_eq_true x e : str_eq x e = true ↔ e = VStr x.
Proof.
  destruct e; simpl; try (split; [discriminate | congruence]).
  rewrite String.eqb_eq. split; congruence.
Qed.

Lemma existsb_str_eq x elems :
  existsb (str_eq x) elems = true ↔ VStr x ∈ elems.
Proof.
  rewrite existsb_exists. split.
  - intros (e & Hin & ->%str_eq_true). by apply list_elem_of_In.
  - intros Hin. exists (VStr x). split; [by apply list_elem_of_In|].
    by apply str_eq_true.
Qed.

(** *** The comprehension against the declared entries *)

Lemma declares_nil name index d : ¬ Schema.declares [] name index d.
Proof. intros (? & ? & H & _). by apply elem_of_nil in H. Qed.

Lemma declares_cons k e items name index d :
  Schema.declares ((k, e) :: items) name index d ↔
  (name = k ∧ Schema.declares [(k, e)] k index d) ∨ Schema.declares items name index d.
Proof.
  split.
  - intros (fields & indices & [[= -> <-]|Hin]%elem_of_cons & ?).
    + left. split; [done|]. exists fields, indices. by rewrite list_elem_of_singleton.
    + right. by exists fields, indices.
  - intros [[-> (fields & indices & [= <-]%list_elem_of_singleton & ?)]
           |(fields & indices & Hin & ?)];
      exists fields, indices; (split; [|done]); apply elem_of_cons; auto.
Qed.

Lemma declares_single k fields indices dflt index d :
  assoc "indices" fields = Some (VList indices) →
  assoc "default" fields = Some dflt →
  Schema.declares [(k, VDict fields)] k index d ↔ VStr index ∈ indices ∧ d = dflt.
Proof.
  intros Hi Hd. split.
  - intros (f & ix & [= <-]%list_elem_of_singleton & Hi' & Hin & Hd').
    split; congruence.
  - intros [Hin ->]. exists fields, indices. by rewrite list_elem_of_singleton.
Qed.

Lemma declares_not_key items name index d :
  name ∉ items.*1 → ¬ Schema.declares items name index d.
Proof.
  intros Hk (fields & indices & Hin & _). apply Hk.
  apply list_elem_of_fmap. by exists (name, VDict fields).
Qed.

Lemma dict_comprehension_exact index items :
  forallb (λ it, Schema.entry_ok it.2) items = true →
  NoDup items.*1 →
  ∀ acc, ∃ m,
    dict_comprehension index items acc = Ok m ∧
    ∀ name d, m !! name = Some d ↔
      Schema.declares items name index d ∨
      ((∀ d', ¬ Schema.declares items name index d') ∧ acc !! name = Some d).
Proof.
  induction items as [|[k e] items IH]; intros Hok Hnd acc.
  - exists acc. split; [done|]. intros name d. split.
    + intros ?. right. split; [|done]. intros d'. apply declares_nil.
    + intros [?%declares_nil|[_ ?]]; done.
  - simpl in Hok. apply andb_true_iff in Hok as [He Hok].
    rewrite fmap_cons in Hnd. apply NoDup_cons in Hnd as [Hk Hnd]. simpl in Hk.
    destruct e as [| | | | |?|fields]; try discriminate.
    unfold Schema.entry_ok in He.
    destruct (assoc "indices" fields) as [[| | | | |indices|?]|] eqn:Hi; try discriminate.
    destruct (assoc "default" fields) as [dflt|] eqn:Hd; try discriminate.
    assert (Hfresh : ∀ d', ¬ Schema.declares items k index d')
      by (intros d'; by apply declares_not_key).
    cbn [dict_comprehension getitem]. rewrite Hi, Hd. cbn [contains].
    destruct (existsb (str_eq index) indices) eqn:Htag.
    + apply existsb_str_eq in Htag.
      destruct (IH Hok Hnd (<[k := dflt]> acc)) as (m & Hc & Hm).
      exists m. split; [exact Hc|]. intros name d. rewrite Hm.
      setoid_rewrite declares_cons.
      destruct (decide (name = k)) as [->|Hne].
      * rewrite lookup_insert_eq, (declares_single _ _ _ _ _ _ Hi Hd). split.
        -- intros [Hdec|[_ [= <-]]]; [by apply Hfresh in Hdec|]. auto.
        -- intros [[[_ [_ ->]]|Hdec]|[Hno _]].
           ++ right. split; [exact Hfresh|done].
           ++ by apply Hfresh in Hdec.
           ++ exfalso. apply (Hno dflt). left. split; [done|].
              by apply (declares_single _ _ _ _ _ _ Hi Hd).
      * rewrite lookup_insert_ne by done. split.
        -- intros [?|[Hno ?]]; [by left; right|]. right. split; [|done].
           intros d' [[? _]|Hd']; [done|]. by apply Hno in Hd'.
        -- intros [[[? _]|?]|[Hno ?]]; [done|by left|]. right. split; [|done].
           intros d' ?. apply (Hno d'). by right.
    + apply not_true_iff_false in Htag. rewrite existsb_str_eq in Htag.
      destruct (IH Hok Hnd acc) as (m & Hc & Hm).
      exists m. split; [exact Hc|]. intros name d. rewrite Hm.
      setoid_rewrite declares_cons.
      assert (Hhead : ∀ d', ¬ Schema.declares [(k, VDict fields)] k index d').
      { intros d' [? _]%(declares_single _ _ _ _ _ _ Hi Hd). done. }
      split.
      * intros [?|[Hno ?]]; [by left; right|]. right. split; [|done].
        intros d' [[_ Hd']|Hd']; [by apply Hhead in Hd'|by apply Hno in Hd'].
      * intros [[[_ Hd']|?]|[Hno ?]]; [by apply Hhead in Hd'|by left|]. right.
        split; [|done]. intros d' ?. apply (Hno d'). by right.
Qed.

(** *** The two queries as functions of the loaded structure *)

Lemma get_params_eq index w :
  get_params index w = (query "params" index (structure (self w)), w).
Proof.
  unfold get_params, query. unfold_monad.
  destruct (getitem _ "params") as [c|e]; [|done].
  by destruct (items_of c).
Qed.

Lemma get_variables_eq index w :
  get_variables index w = (query "variables" index (structure (self w)), w).
Proof.
  unfold get_variables, query. unfold_monad.
  destruct (getitem _ "variables") as [c|e]; [|done].
  by destruct (items_of c).
Qed.

Lemma query_exact key index st :
  getitem st key = Ok (VDict (Schema.collection key st)) →
  Schema.collection_ok (VDict (Schema.collection key st)) = true →
  ∃ m, query key index st = Ok m ∧
    ∀ name d, m !! name = Some d ↔
      Schema.declares (Schema.collection key st) name index d.
Proof.
  intros Hget Hok. unfold query. rewrite Hget. cbn [items_of].
  cbn [Schema.collection_ok] in Hok. apply andb_true_iff in Hok as [Hent Hnd].
  apply bool_decide_eq_true in Hnd.
  destruct (dict_comprehension_exact index _ Hent Hnd ∅) as (m & Hc & Hm).
  exists m. split; [done|]. intros name d. rewrite Hm, lookup_empty. split.
  - by intros [?|[_ ?]].
  - by left.
Qed.

Lemma well_formed_inv st :
  Schema.well_formed st = true →
  (getitem st "params" = Ok (VDict (Schema.collection "params" st)) ∧
   Schema.collection_ok (VDict (Schema.collection "params" st)) = true) ∧
  (getitem st "variables" = Ok (VDict (Schema.collection "variables" st)) ∧
   Schema.collection_ok (VDict (Schema.collection "variables" st)) = true).
Proof.
  destruct st as [| | | | | |top]; try discriminate. cbn.
  destruct (assoc "params" top) as [ps|]; [|discriminate].
  destruct (assoc "variables" top) as [vs|]; [|discriminate].
  intros [Hps Hvs]%andb_true_iff.
  destruct ps as [| | | | | |ps]; try discriminate.
  destruct vs as [| | | | | |vs]; try discriminate.
  done.
Qed.

Lemma well_formed_queries index st :
  Schema.well_formed st = true →
  ∃ ps vs,
    query "params" index st = Ok ps ∧
    query "variables" index st = Ok vs ∧
    (∀ name d, ps !! name = Some d ↔
       Schema.declares (Schema.collection "params" st) name index d) ∧
    (∀ name d, vs !! name = Some d ↔
       Schema.declares (Schema.collection "variables" st) name index d).
Proof.
  intros [[Hp Hpok] [Hv Hvok]]%well_formed_inv.
  destruct (query_exact "params" index st Hp Hpok) as (ps & ? & ?).
  destruct (query_exact "variables" index st Hv Hvok) as (vs & ? & ?).
  by exists ps, vs.
Qed.

(** ** The schema queries *)

(** C3. For a well-formed loaded schema and any index code [i],
    [get_params i] returns without raising a mapping that holds exactly
    the parameters whose declared indices contain [i], each with its
    declared default, neither more nor fewer; [get_variables i] does the
    same over the variables. *)
Theorem get_params_get_variables_exact (w : world) (i : string) :
  Schema.well_formed (structure (self w)) = true →
  ∃ ps vs,
    run (get_params i) w = Ok ps ∧
    run (get_variables i) w = Ok vs ∧
    (∀ name d, ps !! name = Some d ↔
       Schema.declares (Schema.collection "params" (structure (self w))) name i d) ∧
    (∀ name d, vs !! name = Some d ↔
       Schema.declares (Schema.collection "variables" (structure (self w))) name i d).
Proof.
  intros Hwf. unfold run. rewrite get_params_eq, get_variables_eq. cbn [fst].
  destruct (well_formed_inv _ Hwf) as [[Hp Hpok] [Hv Hvok]].
  destruct (query_exact "params" i _ Hp Hpok) as (ps & Hps & Hpd).
  destruct (query_exact "variables" i _ Hv Hvok) as (vs & Hvs & Hvd).
  exists ps, vs. by rewrite Hps, Hvs.
Qed.

Lemma get_params_get_variables_exact_witness :
  ∃ ps vs,
    run (get_params "t") (world_of capacity_skeleton) = Ok ps ∧
    run (get_variables "t") (world_of capacity_skeleton) = Ok vs ∧
    (∀ name d, ps !! name = Some d ↔
       Schema.declares
         (Schema.collection "params" (structure (self (world_of capacity_skeleton))))
         name "t" d) ∧
    (∀ name d, vs !! name = Some d ↔
       Schema.declares
         (Schema.collection "variables" (structure (self (world_of capacity_skeleton))))
         name "t" d).
Proof.
  apply (get_params_get_variables_exact (world_of capacity_skeleton) "t").
  vm_compute. reflexivity.
Defined.

(** C9. [get_params] and [get_variables] are queries: whatever they
    return or raise, the object (graph, node and edge attributes, loaded
    structure), the files and the output are left as they were. *)
Theorem get_params_get_variables_pure (w : world) (i : string) :
  exec (get_params i) w = w ∧ exec (get_variables i) w = w.
Proof.
  unfold exec. by rewrite get_params_eq, get_variables_eq.
Qed.

(** *** Keyword binding *)

Lemma has_key_true {A} (d : gmap string A) k : has_key d k = true ↔ is_Some (d !! k).
Proof.
  unfold has_key. destruct (d !! k); split; done || by intros [? ?].
Qed.

Lemma has_key_false {A} (d : gmap string A) k : has_key d k = false ↔ d !! k = None.
Proof. unfold has_key. by destruct (d !! k). Qed.

Lemma distinct_keywords_lookup fixed ps vs k :
  distinct_keywords fixed ps vs → k ∈ fixed → ps !! k = None ∧ vs !! k = None.
Proof.
  intros [_ Hfix] Hk. rewrite Forall_forall in Hfix. by apply Hfix.
Qed.

Lemma distinct_keywords_disjoint fixed ps vs k :
  distinct_keywords fixed ps vs → is_Some (ps !! k) → vs !! k = None.
Proof.
  intros [Hdisj _] [x Hk]. by eapply map_disjoint_Some_l.
Qed.

Lemma lookup_explicit3 (a b c : string) (x y z : value) (k : string) :
  is_Some ((list_to_map [(a, x); (b, y); (c, z)] : attrs) !! k) → k ∈ [a; b; c].
Proof.
  cbn [list_to_map foldr uncurry fst snd].
  rewrite !lookup_insert, lookup_empty, !elem_of_cons.
  repeat case_decide; auto. by intros [? ?].
Qed.

(** The keyword dictionary of a call with three written-out keywords and
    the two starred mappings. *)
Lemma call_kwargs_distinct (positional : list string) (a b c : string)
    (x y z : value) (ps vs : attrs) :
  a ≠ b → a ≠ c → b ≠ c →
  Forall (λ p, p ∉ [a; b; c]) positional →
  distinct_keywords (positional ++ [a; b; c])%list ps vs →
  call_kwargs positional [(a, x); (b, y); (c, z)] [ps; vs]
  = Ok (<[a := x]> (<[b := y]> (<[c := z]> (ps ∪ vs)))).
Proof.
  intros Hab Hac Hbc Hpos Hd.
  assert (Hk : ∀ k, k ∈ (positional ++ [a; b; c])%list → ps !! k = None ∧ vs !! k = None)
    by (intros k; by apply distinct_keywords_lookup).
  destruct (Hk a) as [Hpa Hva]; [apply elem_of_app; right; in_list|].
  destruct (Hk b) as [Hpb Hvb]; [apply elem_of_app; right; in_list|].
  destruct (Hk c) as [Hpc Hvc]; [apply elem_of_app; right; in_list|].
  assert (Heq : vs ∪ (ps ∪ list_to_map [(a, x); (b, y); (c, z)])
          = <[a := x]> (<[b := y]> (<[c := z]> (ps ∪ vs)))).
  { cbn [list_to_map foldr uncurry fst snd].
    apply map_eq. intros k.
    rewrite !lookup_union, !lookup_insert, lookup_empty, !lookup_union.
    repeat case_decide; subst; simplify_eq;
      rewrite ?Hpa, ?Hva, ?Hpb, ?Hvb, ?Hpc, ?Hvc; try done.
    destruct (ps !! k) eqn:Hp, (vs !! k) eqn:Hv; try done.
    rewrite (distinct_keywords_disjoint _ _ _ _ Hd) in Hv; [done|by rewrite Hp]. }
  unfold call_kwargs. cbn [merge_stars].
  rewrite decide_True.
  2:{ apply map_disjoint_spec. intros k u v Hkp Hke.
      destruct (Hk k) as [Hn _]; [|congruence].
      apply elem_of_app; right. apply (lookup_explicit3 a b c x y z). by rewrite Hke. }
  rewrite decide_True.
  2:{ apply map_disjoint_spec. intros k u v Hkv Hke.
      apply lookup_union_Some_raw in Hke as [Hkp|[_ Hke]].
      - rewrite (distinct_keywords_disjoint _ _ _ _ Hd) in Hkv; [done|by rewrite Hkp].
      - destruct (Hk k) as [_ Hn]; [|congruence].
        apply elem_of_app; right. apply (lookup_explicit3 a b c x y z). by rewrite Hke. }
  rewrite Heq.
  replace (existsb _ positional) with false; [done|].
  symmetry. apply not_true_iff_false. rewrite existsb_exists.
  intros (p & Hp%list_elem_of_In & [w Hw]%has_key_true).
  rewrite Forall_forall in Hpos.
  specialize (Hpos p Hp). rewrite !not_elem_of_cons in Hpos.
  destruct Hpos as (? & ? & ? & _).
  destruct (Hk p) as [Hpp Hvp]; [apply elem_of_app; by left|].
  rewrite !lookup_insert_ne, lookup_union in Hw by done.
  by rewrite Hpp, Hvp in Hw.
Qed.

Lemma technology_kwargs ty lay idx ps vs :
  distinct_keywords add_node_names ps vs →
  call_kwargs ["self"; "node_for_adding"]
    [("tech_type", VStr ty); ("layer", VInt lay); ("index", VStr idx)] [ps; vs]
  = Ok (technology_attrs ty lay idx ps vs).
Proof.
  intros Hd. apply call_kwargs_distinct; try done.
  repeat constructor; rewrite !not_elem_of_cons; repeat split; try done;
    apply not_elem_of_nil.
Qed.

Lemma fuel_kwargs fl ft idx ps vs :
  distinct_keywords add_edge_names ps vs →
  call_kwargs ["self"; "u_of_edge"; "v_of_edge"]
    [("fuel_label", VStr fl); ("fuel_type", VStr ft); ("index", VStr idx)] [ps; vs]
  = Ok (fuel_attrs fl ft idx ps vs).
Proof.
  intros Hd. apply call_kwargs_distinct; try done.
  repeat constructor; rewrite !not_elem_of_cons; repeat split; try done;
    apply not_elem_of_nil.
Qed.

Lemma call_kwargs_clash positional explicit ps vs k :
  k ∈ explicit.*1 →
  is_Some (ps !! k) ∨ is_Some (vs !! k) →
  call_kwargs positional explicit [ps; vs] = Raise TypeError.
Proof.
  intros Hk Hclash.
  assert (is_Some ((list_to_map explicit : attrs) !! k)) as [x Hx].
  { apply not_eq_None_Some. by intros Hn%not_elem_of_list_to_map. }
  unfold call_kwargs. cbn [merge_stars].
  destruct (decide (ps ##ₘ _)) as [Hps|]; [|done].
  destruct (decide (vs ##ₘ _)) as [Hvs|]; [|done].
  exfalso. destruct Hclash as [[y Hy]|[y Hy]].
  - exact (proj1 (map_disjoint_spec _ _) Hps k y x Hy Hx).
  - assert (is_Some ((ps ∪ list_to_map explicit) !! k)) as [z Hz].
    { rewrite lookup_union, Hx. destruct (ps !! k); simpl; eauto. }
    exact (proj1 (map_disjoint_spec _ _) Hvs k y z Hy Hz).
Qed.

(** *** The container's methods *)

Lemma touch_node_eq u g : DiGraph.touch_node u g = (Ok tt, touched u g).
Proof.
  unfold DiGraph.touch_node, touched. unfold_monad.
  by destruct (has_key (DiGraph._succ g) u).
Qed.

Lemma add_node_eq n attr g :
  DiGraph.add_node n attr g =
  if has_key (DiGraph._succ g) n then
    match DiGraph._node g !! n with
    | Some d =>
        (Ok tt, DiGraph.mk (<[n := attr ∪ d]> (DiGraph._node g))
                  (DiGraph._succ g) (DiGraph._pred g))
    | None => (Raise (KeyError n), g)
    end
  else
    (Ok tt, DiGraph.mk (<[n := attr]> (DiGraph._node g))
              (<[n := ∅]> (DiGraph._succ g)) (<[n := ∅]> (DiGraph._pred g))).
Proof.
  unfold DiGraph.add_node, DiGraph.subscript. unfold_monad.
  destruct (has_key (DiGraph._succ g) n); simpl.
  - destruct (DiGraph._node g !! n); [|done]. by destruct g.
  - by rewrite (right_id_L ∅ (∪)).
Qed.

Lemma add_node_node_other n attr g m :
  m ≠ n →
  DiGraph._node (exec (DiGraph.add_node n attr) g) !! m = DiGraph._node g !! m.
Proof.
  intros Hne. unfold exec. rewrite add_node_eq.
  destruct (has_key _ n); [destruct (DiGraph._node g !! n)|]; simpl;
    by rewrite ?lookup_insert_ne.
Qed.

Lemma add_node_edge_data n attr g u v :
  DiGraph.get_edge_data (exec (DiGraph.add_node n attr) g) u v
  = DiGraph.get_edge_data g u v.
Proof.
  unfold exec, DiGraph.get_edge_data. rewrite add_node_eq.
  destruct (has_key _ n) eqn:Hn; [by destruct (DiGraph._node g !! n)|]. simpl.
  apply has_key_false in Hn.
  destruct (decide (u = n)) as [->|Hne].
  - by rewrite lookup_insert_eq, Hn.
  - by rewrite lookup_insert_ne.
Qed.

Lemma add_node_has_edge n attr g u v :
  DiGraph.has_edge (exec (DiGraph.add_node n attr) g) u v = DiGraph.has_edge g u v.
Proof.
  unfold exec, DiGraph.has_edge. rewrite add_node_eq.
  destruct (has_key _ n) eqn:Hn; [by destruct (DiGraph._node g !! n)|]. simpl.
  apply has_key_false in Hn.
  destruct (decide (u = n)) as [->|Hne].
  - by rewrite lookup_insert_eq, Hn.
  - by rewrite lookup_insert_ne.
Qed.

(** The edge count is a sum over the successor dictionary. *)
Lemma out_degree_comm (z1 z2 : gmap string attrs) (y : nat) :
  size z1 + (size z2 + y) = size z2 + (size z1 + y).
Proof. lia. Qed.

Lemma edge_sum_insert_None (succ : gmap string (gmap string attrs)) u nbrs :
  succ !! u = None →
  map_fold (λ _ (nbrs : gmap string attrs) n, size nbrs + n) 0 (<[u := nbrs]> succ)
  = size nbrs + map_fold (λ _ (nbrs : gmap string attrs) n, size nbrs + n) 0 succ.
Proof.
  intros Hu. rewrite map_fold_insert_L; [done| |done].
  intros. apply out_degree_comm.
Qed.

Lemma edge_sum_insert_Some (succ : gmap string (gmap string attrs)) u old nbrs :
  succ !! u = Some old →
  map_fold (λ _ (nbrs : gmap string attrs) n, size nbrs + n) 0 (<[u := nbrs]> succ)
    + size old
  = size nbrs + map_fold (λ _ (nbrs : gmap string attrs) n, size nbrs + n) 0 succ.
Proof.
  intros Hu.
  rewrite <- (insert_delete_eq succ).
  rewrite edge_sum_insert_None by apply lookup_delete_eq.
  rewrite (map_fold_delete_L _ _ u old succ); [lia| |done].
  intros. apply out_degree_comm.
Qed.

Lemma add_node_number_of_edges n attr g :
  DiGraph.number_of_edges (exec (DiGraph.add_node n attr) g)
  = DiGraph.number_of_edges g.
Proof.
  unfold exec, DiGraph.number_of_edges. rewrite add_node_eq.
  destruct (has_key _ n) eqn:Hn; [by destruct (DiGraph._node g !! n)|]. simpl.
  apply has_key_false in Hn. by rewrite edge_sum_insert_None.
Qed.

Lemma add_node_idempotent n attr g :
  exec (DiGraph.add_node n attr) (exec (DiGraph.add_node n attr) g)
  = exec (DiGraph.add_node n attr) g.
Proof.
  unfold exec. rewrite (add_node_eq n attr g).
  destruct (has_key (DiGraph._succ g) n) eqn:Hn.
  - destruct (DiGraph._node g !! n) as [d|] eqn:Hd; simpl.
    + rewrite add_node_eq. simpl. rewrite Hn, lookup_insert_eq. simpl.
      by rewrite insert_insert_eq, (assoc_L (∪)), (idemp_L (∪)).
    + by rewrite add_node_eq, Hn, Hd.
  - simpl. rewrite add_node_eq. simpl.
    assert (has_key (<[n:=∅]> (DiGraph._succ g)) n = true) as ->
      by (apply has_key_true; rewrite lookup_insert_eq; eauto).
    rewrite lookup_insert_eq. simpl.
    by rewrite insert_insert_eq, (idemp_L (∪)).
Qed.

Lemma add_node_run_again n attr g :
  run (DiGraph.add_node n attr) (exec (DiGraph.add_node n attr) g)
  = run (DiGraph.add_node n attr) g.
Proof.
  unfold run, exec. rewrite (add_node_eq n attr g).
  destruct (has_key (DiGraph._succ g) n) eqn:Hn.
  - destruct (DiGraph._node g !! n) as [d|] eqn:Hd; simpl.
    + rewrite add_node_eq. simpl. by rewrite Hn, lookup_insert_eq.
    + by rewrite add_node_eq, Hn, Hd.
  - simpl. rewrite add_node_eq. simpl.
    assert (has_key (<[n:=∅]> (DiGraph._succ g)) n = true) as ->
      by (apply has_key_true; rewrite lookup_insert_eq; eauto).
    by rewrite lookup_insert_eq.
Qed.

(** *** Calls on the whole object *)

Lemma super_eq {A} (m : M DiGraph.t A) w :
  super m w = (run m (graph w), set_self (set_base (exec m (graph w))) w).
Proof.
  unfold super, graph. unfold_monad. by destruct (m (base (self w))).
Qed.

Lemma add_technology_eq label ty layer index w :
  add_technology label ty layer index w =
  match query "params" (default "t" index) (structure (self w)) with
  | Raise e => (Raise e, w)
  | Ok ps =>
      match query "variables" (default "t" index) (structure (self w)) with
      | Raise e => (Raise e, w)
      | Ok vs =>
          match call_kwargs ["self"; "node_for_adding"]
                  [("tech_type", VStr ty); ("layer", VInt layer);
                   ("index", VStr (default "t" index))] [ps; vs] with
          | Raise e => (Raise e, w)
          | Ok attr => super (DiGraph.add_node label attr) w
          end
      end
  end.
Proof.
  unfold add_technology.
  destruct (query "params" _ _) as [ps|e] eqn:Hps.
  2:{ erewrite bind_raise; [done|]. by rewrite get_params_eq, Hps. }
  erewrite bind_ok; [|by rewrite get_params_eq, Hps].
  destruct (query "variables" _ _) as [vs|e] eqn:Hvs.
  2:{ erewrite bind_raise; [done|]. by rewrite get_variables_eq, Hvs. }
  erewrite bind_ok; [|by rewrite get_variables_eq, Hvs].
  destruct (call_kwargs _ _ _) as [attr|e] eqn:Hkw.
  - by erewrite bind_ok.
  - by erewrite bind_raise.
Qed.

Lemma add_fuel_eq a b fl ft index w :
  add_fuel a b fl ft index w =
  match query "params" (default "f" index) (structure (self w)) with
  | Raise e => (Raise e, w)
  | Ok ps =>
      match query "variables" (default "f" index) (structure (self w)) with
      | Raise e => (Raise e, w)
      | Ok vs =>
          match call_kwargs ["self"; "u_of_edge"; "v_of_edge"]
                  [("fuel_label", VStr fl); ("fuel_type", VStr ft);
                   ("index", VStr (default "f" index))] [ps; vs] with
          | Raise e => (Raise e, w)
          | Ok attr => super (DiGraph.add_edge a b attr) w
          end
      end
  end.
Proof.
  unfold add_fuel.
  destruct (query "params" _ _) as [ps|e] eqn:Hps.
  2:{ erewrite bind_raise; [done|]. by rewrite get_params_eq, Hps. }
  erewrite bind_ok; [|by rewrite get_params_eq, Hps].
  destruct (query "variables" _ _) as [vs|e] eqn:Hvs.
  2:{ erewrite bind_raise; [done|]. by rewrite get_variables_eq, Hvs. }
  erewrite bind_ok; [|by rewrite get_variables_eq, Hvs].
  destruct (call_kwargs _ _ _) as [attr|e] eqn:Hkw.
  - by erewrite bind_ok.
  - by erewrite bind_raise.
Qed.

(** Either the call raises before the graph is touched, or it is the call
    of [add_node] with some keyword attributes. *)
Lemma add_technology_cases label ty layer index w :
  (∃ e, add_technology label ty layer index w = (Raise e, w)) ∨
  (∃ attr, add_technology label ty layer index w
           = super (DiGraph.add_node label attr) w).
Proof.
  rewrite add_technology_eq.
  destruct (query "params" _ _); [|eauto].
  destruct (query "variables" _ _); [|eauto].
  destruct (call_kwargs _ _ _); eauto.
Qed.

(** ** Adding a technology *)

(** C7. Idempotence of [add_technology]: from any state, a second call
    with the same label and the same arguments returns as the first did
    and leaves the whole state, hence the node set and the node's
    attributes, exactly as the first call left it. *)
Theorem add_technology_idempotent (w : world) (label ty : string) (layer : Z)
    (index : option string) :
  add_technology label ty layer index
    (exec (add_technology label ty layer index) w)
  = (run (add_technology label ty layer index) w,
     exec (add_technology label ty layer index) w).
Proof.
  unfold run at 1, exec. rewrite (add_technology_eq label ty layer index w).
  destruct (query "params" _ _) as [ps|e] eqn:Hps.
  2:{ simpl. by rewrite add_technology_eq, Hps. }
  destruct (query "variables" _ _) as [vs|e] eqn:Hvs.
  2:{ simpl. by rewrite add_technology_eq, Hps, Hvs. }
  destruct (call_kwargs _ _ _) as [attr|e] eqn:Hkw.
  2:{ simpl. by rewrite add_technology_eq, Hps, Hvs, Hkw. }
  rewrite super_eq. cbn [fst snd].
  rewrite add_technology_eq. cbn [self set_self structure set_base].
  rewrite Hps, Hvs, Hkw, super_eq.
  unfold graph. cbn [self set_self base set_base].
  fold (graph w).
  rewrite add_node_run_again, add_node_idempotent. done.
Qed.

(** C10. Frame of [add_technology]: from any state and for any
    arguments, every node other than [label] keeps its attributes (and is
    a node after the call exactly when it was one before), the edges and
    their attributes (as [G.edges], [has_edge] and [get_edge_data] read
    them) are unchanged, and so are the loaded structure, the
    skeleton path, the files and the output.  Only the node [label] can be
    inserted or updated. *)
Theorem add_technology_frame (w : world) (label ty : string) (layer : Z)
    (index : option string) :
  ∃ w', w' = exec (add_technology label ty layer index) w ∧
  (∀ n, n ≠ label →
     DiGraph.node_attrs (graph w') n = DiGraph.node_attrs (graph w) n) ∧
  (∀ u v, DiGraph.get_edge_data (graph w') u v = DiGraph.get_edge_data (graph w) u v) ∧
  (∀ u v, DiGraph.has_edge (graph w') u v = DiGraph.has_edge (graph w) u v) ∧
  DiGraph.number_of_edges (graph w') = DiGraph.number_of_edges (graph w) ∧
  structure (self w') = structure (self w) ∧
  skeleton_path (self w') = skeleton_path (self w) ∧
  files w' = files w ∧
  stdout w' = stdout w.
Proof.
  eexists. split; [reflexivity|].
  unfold exec.
  destruct (add_technology_cases label ty layer index w) as [[e ->]|[attr ->]].
  { done. }
  rewrite super_eq. cbn [snd]. unfold graph at 1 3 5 7.
  cbn [self set_self base set_base structure skeleton_path files stdout].
  repeat split.
  - intros n Hn. by apply add_node_node_other.
  - intros u v. apply add_node_edge_data.
  - intros u v. apply add_node_has_edge.
  - apply add_node_number_of_edges.
Qed.

(** ** Construction without a skeleton file *)

(** C1, as the code has it.  When no file exists at the skeleton path,
    construction returns normally with an empty structure, an empty graph
    and one warning line; afterwards [get_params] and [get_variables]
    raise [KeyError] for every index code instead of returning an empty
    mapping. *)
Theorem missing_skeleton_queries_raise (fs : gmap string (result value))
    (path : option string) :
  fs !! default default_path path = None →
  ∃ w, new fs path = (Ok tt, w) ∧
    structure (self w) = VDict [] ∧
    graph w = DiGraph.mk ∅ ∅ ∅ ∧
    length (stdout w) = 1 ∧
    ∀ i, run (get_params i) w = Raise (KeyError "params") ∧
         run (get_variables i) w = Raise (KeyError "variables").
Proof.
  intros Hmiss. eexists. split.
  - unfold new, __init__, __post_init__, load_structure, open_json_load, print,
      super, DiGraph.__init__.
    unfold_monad. cbn. unfold default_path in Hmiss. rewrite Hmiss. cbn.
    reflexivity.
  - cbn. repeat split; unfold run; by rewrite ?get_params_eq, ?get_variables_eq.
Qed.

Lemma missing_skeleton_queries_raise_witness :
  ∃ w, new ∅ None = (Ok tt, w) ∧
    structure (self w) = VDict [] ∧
    graph w = DiGraph.mk ∅ ∅ ∅ ∧
    length (stdout w) = 1 ∧
    ∀ i, run (get_params i) w = Raise (KeyError "params") ∧
         run (get_variables i) w = Raise (KeyError "variables").
Proof. apply (missing_skeleton_queries_raise ∅ None). reflexivity. Defined.

(** *** Consistent graphs *)

Lemma has_key_dom {A B} (d1 : gmap string A) (d2 : gmap string B) n :
  dom d1 =@{gset string} dom d2 → has_key d1 n = has_key d2 n.
Proof.
  intros Hdom. destruct (has_key d2 n) eqn:H2.
  - apply has_key_true, elem_of_dom. rewrite Hdom.
    by apply elem_of_dom, has_key_true.
  - apply has_key_false, not_elem_of_dom. rewrite Hdom.
    by apply not_elem_of_dom, has_key_false.
Qed.

Lemma consistent_empty : DiGraph.consistent (DiGraph.mk ∅ ∅ ∅).
Proof. repeat split. Qed.

Lemma has_edge_data g u v :
  DiGraph.has_edge g u v = true ↔ is_Some (DiGraph.get_edge_data g u v).
Proof.
  unfold DiGraph.has_edge, DiGraph.get_edge_data.
  destruct (DiGraph._succ g !! u) as [nbrs|]; cbn.
  - apply has_key_true.
  - split; [done|]. by intros [? ?].
Qed.

Lemma has_edge_false g u v :
  DiGraph.has_edge g u v = false ↔ DiGraph.get_edge_data g u v = None.
Proof.
  unfold DiGraph.has_edge, DiGraph.get_edge_data.
  destruct (DiGraph._succ g !! u) as [nbrs|]; cbn; [apply has_key_false|done].
Qed.

(** In a consistent graph the endpoints of an edge are nodes. *)
Lemma consistent_edge_nodes g u v :
  DiGraph.consistent g →
  DiGraph.has_edge g u v = true →
  has_key (DiGraph._succ g) u = true ∧ has_key (DiGraph._succ g) v = true.
Proof.
  intros (Hs & Hp & Hmirror) [d Hd]%has_edge_data. split.
  - unfold DiGraph.get_edge_data in Hd. apply has_key_true.
    destruct (DiGraph._succ g !! u); [eauto|done].
  - rewrite (has_key_dom _ (DiGraph._pred g)) by congruence.
    unfold DiGraph.get_edge_data in Hd. rewrite Hmirror in Hd.
    apply has_key_true. destruct (DiGraph._pred g !! v); [eauto|done].
Qed.

Lemma add_node_consistent n attr g :
  DiGraph.consistent g →
  run (DiGraph.add_node n attr) g = Ok tt ∧
  DiGraph.consistent (exec (DiGraph.add_node n attr) g) ∧
  DiGraph.node_attrs (exec (DiGraph.add_node n attr) g) n
    = Some (attr ∪ default ∅ (DiGraph.node_attrs g n)) ∧
  DiGraph.number_of_nodes (exec (DiGraph.add_node n attr) g)
    = (if DiGraph.has_node g n then DiGraph.number_of_nodes g
       else Datatypes.S (DiGraph.number_of_nodes g)).
Proof.
  intros (Hs & Hp & Hmirror).
  unfold run, exec, DiGraph.node_attrs, DiGraph.number_of_nodes, DiGraph.has_node.
  rewrite add_node_eq, (has_key_dom _ (DiGraph._node g)) by done.
  destruct (has_key (DiGraph._node g) n) eqn:Hn.
  - apply has_key_true in Hn as [d Hd]. rewrite Hd. cbn.
    rewrite lookup_insert_eq. repeat split; cbn.
    + rewrite Hs. symmetry. apply dom_insert_lookup_L. eauto.
    + rewrite Hp. symmetry. apply dom_insert_lookup_L. eauto.
    + done.
    + apply map_size_insert_Some. eauto.
  - apply has_key_false in Hn. cbn. rewrite Hn. cbn.
    rewrite lookup_insert_eq, (right_id_L ∅ (∪)). repeat split; cbn.
    + rewrite !dom_insert_L. by rewrite Hs.
    + rewrite !dom_insert_L. by rewrite Hp.
    + intros u v.
      assert (DiGraph._succ g !! n = None) as Hsn
        by (apply not_elem_of_dom; rewrite Hs; by apply not_elem_of_dom).
      assert (DiGraph._pred g !! n = None) as Hpn
        by (apply not_elem_of_dom; rewrite Hp; by apply not_elem_of_dom).
      specialize (Hmirror u v).
      destruct (decide (u = n)) as [->|Hu], (decide (v = n)) as [->|Hv];
        rewrite ?lookup_insert_eq, ?lookup_insert_ne by done; cbn;
        rewrite ?lookup_empty; try done.
      * rewrite Hsn in Hmirror. cbn in Hmirror. by rewrite <- Hmirror.
      * rewrite Hpn in Hmirror. cbn in Hmirror. by rewrite Hmirror.
    + by apply map_size_insert_None.
Qed.

Lemma touched_as_add_node u g :
  DiGraph.consistent g → touched u g = exec (DiGraph.add_node u ∅) g.
Proof.
  intros (Hs & _). unfold touched, exec. rewrite add_node_eq.
  destruct (has_key (DiGraph._succ g) u) eqn:Hu; [|done]. cbn.
  rewrite (has_key_dom _ (DiGraph._node g)) in Hu by done.
  apply has_key_true in Hu as [d Hd]. rewrite Hd. cbn.
  rewrite (left_id_L ∅ (∪)), insert_id by done. by destruct g.
Qed.

Lemma touched_consistent u g :
  DiGraph.consistent g → DiGraph.consistent (touched u g).
Proof.
  intros Hc. rewrite touched_as_add_node by done.
  by apply add_node_consistent.
Qed.

Lemma touched_has_key u g : has_key (DiGraph._succ (touched u g)) u = true.
Proof.
  unfold touched. destruct (has_key (DiGraph._succ g) u) eqn:Hu; [done|]. cbn.
  apply has_key_true. rewrite lookup_insert_eq. eauto.
Qed.

Lemma touched_has_key_mono u g n :
  has_key (DiGraph._succ g) n = true →
  has_key (DiGraph._succ (touched u g)) n = true.
Proof.
  intros Hn. unfold touched.
  destruct (has_key (DiGraph._succ g) u) eqn:Hu; [done|]. cbn.
  apply has_key_true. apply has_key_true in Hn.
  rewrite lookup_insert_ne; [done|]. intros ->.
  apply has_key_false in Hu. rewrite Hu in Hn. by destruct Hn.
Qed.

Lemma touched_edge_data u g x y :
  DiGraph.get_edge_data (touched u g) x y = DiGraph.get_edge_data g x y.
Proof.
  unfold touched, DiGraph.get_edge_data.
  destruct (has_key (DiGraph._succ g) u) eqn:Hu; [done|]. cbn.
  apply has_key_false in Hu.
  destruct (decide (x = u)) as [->|Hne].
  - by rewrite lookup_insert_eq, Hu.
  - by rewrite lookup_insert_ne.
Qed.

Lemma touched_number_of_edges u g :
  DiGraph.number_of_edges (touched u g) = DiGraph.number_of_edges g.
Proof.
  unfold touched, DiGraph.number_of_edges.
  destruct (has_key (DiGraph._succ g) u) eqn:Hu; [done|]. cbn.
  apply has_key_false in Hu. by rewrite edge_sum_insert_None.
Qed.

Lemma touched_node_other u g n :
  n ≠ u → DiGraph._node (touched u g) !! n = DiGraph._node g !! n.
Proof.
  intros Hne. unfold touched.
  destruct (has_key (DiGraph._succ g) u); [done|]. cbn.
  by rewrite lookup_insert_ne.
Qed.

Lemma touched_node_self u g :
  DiGraph.consistent g →
  DiGraph._node (touched u g) !! u = Some (default ∅ (DiGraph._node g !! u)).
Proof.
  intros Hc. rewrite touched_as_add_node by done.
  destruct (add_node_consistent u ∅ g Hc) as (_ & _ & Hn & _).
  unfold DiGraph.node_attrs in Hn. by rewrite Hn, (left_id_L ∅ (∪)).
Qed.

Lemma touched_present u g :
  has_key (DiGraph._succ g) u = true → touched u g = g.
Proof. intros Hu. unfold touched. by rewrite Hu. Qed.

Lemma add_edge_consistent_eq u v attr g :
  DiGraph.consistent g →
  ∃ adj_u pred_v,
    DiGraph._succ (touched v (touched u g)) !! u = Some adj_u ∧
    DiGraph._pred (touched v (touched u g)) !! v = Some pred_v ∧
    DiGraph.add_edge u v attr g =
      (Ok tt,
       DiGraph.mk (DiGraph._node (touched v (touched u g)))
         (<[u := <[v := attr ∪ default ∅ (adj_u !! v)]> adj_u]>
            (DiGraph._succ (touched v (touched u g))))
         (<[v := <[u := attr ∪ default ∅ (adj_u !! v)]> pred_v]>
            (DiGraph._pred (touched v (touched u g))))).
Proof.
  intros Hc.
  assert (Hc2 : DiGraph.consistent (touched v (touched u g)))
    by (by do 2 apply touched_consistent).
  assert (is_Some (DiGraph._succ (touched v (touched u g)) !! u)) as [adj_u Hu].
  { apply has_key_true, touched_has_key_mono, touched_has_key. }
  assert (is_Some (DiGraph._pred (touched v (touched u g)) !! v)) as [pred_v Hv].
  { apply has_key_true. destruct Hc2 as (Hs & Hp & _).
    rewrite (has_key_dom _ (DiGraph._succ (touched v (touched u g)))) by congruence.
    apply touched_has_key. }
  exists adj_u, pred_v. split; [done|]. split; [done|].
  unfold DiGraph.add_edge.
  erewrite bind_ok; [|apply touch_node_eq].
  erewrite bind_ok; [|apply touch_node_eq].
  set (g2 := touched v (touched u g)) in *. clearbody g2.
  unfold DiGraph.subscript, DiGraph.set_succ, DiGraph.set_pred. unfold_monad.
  cbn. rewrite Hu. cbn. rewrite Hu. cbn. by rewrite Hv.
Qed.

Lemma touched2_edge_data u v g x y :
  DiGraph.get_edge_data (touched v (touched u g)) x y = DiGraph.get_edge_data g x y.
Proof. by rewrite !touched_edge_data. Qed.

Lemma add_edge_run u v attr g :
  DiGraph.consistent g → run (DiGraph.add_edge u v attr) g = Ok tt.
Proof.
  intros Hc. unfold run.
  by destruct (add_edge_consistent_eq u v attr g Hc) as (? & ? & _ & _ & ->).
Qed.

Lemma add_edge_edge_data u v attr g :
  DiGraph.consistent g →
  DiGraph.get_edge_data (exec (DiGraph.add_edge u v attr) g) u v
  = Some (attr ∪ default ∅ (DiGraph.get_edge_data g u v)).
Proof.
  intros Hc. unfold exec.
  destruct (add_edge_consistent_eq u v attr g Hc) as (adj_u & pred_v & Hu & _ & ->).
  cbn [snd]. rewrite <- (touched2_edge_data u v g u v).
  unfold DiGraph.get_edge_data. cbn [DiGraph._succ].
  rewrite lookup_insert_eq, Hu. cbn. by rewrite lookup_insert_eq.
Qed.

Lemma add_edge_edge_data_other u v attr g x y :
  DiGraph.consistent g →
  (x, y) ≠ (u, v) →
  DiGraph.get_edge_data (exec (DiGraph.add_edge u v attr) g) x y
  = DiGraph.get_edge_data g x y.
Proof.
  intros Hc Hne. unfold exec.
  destruct (add_edge_consistent_eq u v attr g Hc) as (adj_u & pred_v & Hu & _ & ->).
  cbn [snd]. rewrite <- (touched2_edge_data u v g x y).
  unfold DiGraph.get_edge_data. cbn [DiGraph._succ].
  destruct (decide (x = u)) as [->|Hx].
  - rewrite lookup_insert_eq, Hu. cbn.
    rewrite lookup_insert_ne; [done|]. congruence.
  - by rewrite lookup_insert_ne.
Qed.

Lemma add_edge_number_of_edges u v attr g :
  DiGraph.consistent g →
  DiGraph.number_of_edges (exec (DiGraph.add_edge u v attr) g)
  = (if DiGraph.has_edge g u v then DiGraph.number_of_edges g
     else Datatypes.S (DiGraph.number_of_edges g)).
Proof.
  intros Hc. unfold exec.
  destruct (add_edge_consistent_eq u v attr g Hc) as (adj_u & pred_v & Hu & _ & ->).
  cbn [snd].
  assert (Hdata : adj_u !! v = DiGraph.get_edge_data g u v).
  { rewrite <- (touched2_edge_data u v g u v). unfold DiGraph.get_edge_data.
    by rewrite Hu. }
  rewrite <- (touched_number_of_edges u g), <- (touched_number_of_edges v (touched u g)).
  unfold DiGraph.number_of_edges at 1 2 3. cbn [DiGraph._succ].
  pose proof (edge_sum_insert_Some _ u adj_u
                (<[v := attr ∪ default ∅ (adj_u !! v)]> adj_u) Hu) as Hsum.
  rewrite map_size_insert in Hsum.
  destruct (DiGraph.has_edge g u v) eqn:He.
  - apply has_edge_data in He as [d Hd]. rewrite Hdata, Hd in Hsum |- *.
    cbn in Hsum |- *. unfold DiGraph.number_of_edges. lia.
  - apply has_edge_false in He. rewrite Hdata, He in Hsum |- *.
    cbn in Hsum |- *. unfold DiGraph.number_of_edges. lia.
Qed.

Lemma add_edge_node u v attr g :
  DiGraph.consistent g →
  DiGraph._node (exec (DiGraph.add_edge u v attr) g)
  = DiGraph._node (touched v (touched u g)).
Proof.
  intros Hc. unfold exec.
  by destruct (add_edge_consistent_eq u v attr g Hc) as (? & ? & _ & _ & ->).
Qed.

(** Consistency is an invariant of [add_edge] (and of [add_node], above). *)
Lemma add_edge_consistent u v attr g :
  DiGraph.consistent g →
  DiGraph.consistent (exec (DiGraph.add_edge u v attr) g).
Proof.
  intros Hc. unfold exec.
  destruct (add_edge_consistent_eq u v attr g Hc)
    as (adj_u & pred_v & Hu & Hv & ->).
  cbn [snd].
  assert (Hc2 : DiGraph.consistent (touched v (touched u g)))
    by (by do 2 apply touched_consistent).
  set (g2 := touched v (touched u g)) in *. clearbody g2.
  destruct Hc2 as (Hs & Hp & Hmirror).
  repeat split; cbn [DiGraph._node DiGraph._succ DiGraph._pred].
  - rewrite <- Hs. apply dom_insert_lookup_L. eauto.
  - rewrite <- Hp. apply dom_insert_lookup_L. eauto.
  - intros x y. specialize (Hmirror x y).
    destruct (decide (x = u)) as [->|Hx], (decide (y = v)) as [->|Hy];
      rewrite ?lookup_insert_eq, ?lookup_insert_ne by done; cbn;
      rewrite ?lookup_insert_eq, ?lookup_insert_ne by done.
    + done.
    + by rewrite Hu in Hmirror.
    + by rewrite Hv in Hmirror.
    + done.
Qed.

Lemma add_edge_node_attrs_endpoint u v attr g n :
  DiGraph.consistent g →
  n = u ∨ n = v →
  DiGraph.node_attrs (exec (DiGraph.add_edge u v attr) g) n
  = Some (default ∅ (DiGraph.node_attrs g n)).
Proof.
  intros Hc Hn. unfold DiGraph.node_attrs. rewrite add_edge_node by done.
  destruct (decide (n = v)) as [->|Hv].
  - rewrite touched_node_self by (by apply touched_consistent).
    destruct (decide (v = u)) as [->|Hu].
    + by rewrite touched_node_self.
    + by rewrite touched_node_other.
  - destruct Hn as [->|?]; [|done].
    rewrite touched_node_other by done. by rewrite touched_node_self.
Qed.

Lemma add_edge_node_attrs_other u v attr g n :
  DiGraph.consistent g →
  n ≠ u → n ≠ v →
  DiGraph.node_attrs (exec (DiGraph.add_edge u v attr) g) n
  = DiGraph.node_attrs g n.
Proof.
  intros Hc Hu Hv. unfold DiGraph.node_attrs. rewrite add_edge_node by done.
  by rewrite !touched_node_other.
Qed.

Lemma add_edge_again_number_of_nodes u v attr g :
  DiGraph.consistent g →
  DiGraph.has_edge g u v = true →
  DiGraph.number_of_nodes (exec (DiGraph.add_edge u v attr) g)
  = DiGraph.number_of_nodes g.
Proof.
  intros Hc He. unfold DiGraph.number_of_nodes. rewrite add_edge_node by done.
  destruct (consistent_edge_nodes g u v Hc He) as [Hu Hv].
  by rewrite (touched_present u g), (touched_present v g).
Qed.

Lemma super_add_edge_ok a b attr w :
  DiGraph.consistent (graph w) →
  super (DiGraph.add_edge a b attr) w
  = (Ok tt, set_self (set_base (exec (DiGraph.add_edge a b attr) (graph w))) w).
Proof. intros Hc. by rewrite super_eq, add_edge_run. Qed.

Lemma super_add_node_ok n attr w :
  DiGraph.consistent (graph w) →
  super (DiGraph.add_node n attr) w
  = (Ok tt, set_self (set_base (exec (DiGraph.add_node n attr) (graph w))) w).
Proof.
  intros Hc. rewrite super_eq.
  by destruct (add_node_consistent n attr (graph w) Hc) as (-> & _).
Qed.

(** What the two methods do when the keywords are distinct. *)
Lemma add_technology_ok label ty layer index ps vs w :
  DiGraph.consistent (graph w) →
  run (get_params (default "t" index)) w = Ok ps →
  run (get_variables (default "t" index)) w = Ok vs →
  distinct_keywords add_node_names ps vs →
  add_technology label ty layer index w
  = (Ok tt,
     set_self (set_base
       (exec (DiGraph.add_node label
                (technology_attrs ty layer (default "t" index) ps vs)) (graph w))) w).
Proof.
  unfold run. rewrite get_params_eq, get_variables_eq. cbn [fst].
  intros Hc Hps Hvs Hd.
  rewrite add_technology_eq, Hps, Hvs, technology_kwargs by done.
  by apply super_add_node_ok.
Qed.

Lemma add_fuel_ok a b fl ft index ps vs w :
  DiGraph.consistent (graph w) →
  run (get_params (default "f" index)) w = Ok ps →
  run (get_variables (default "f" index)) w = Ok vs →
  distinct_keywords add_edge_names ps vs →
  add_fuel a b fl ft index w
  = (Ok tt,
     set_self (set_base
       (exec (DiGraph.add_edge a b
                (fuel_attrs fl ft (default "f" index) ps vs)) (graph w))) w).
Proof.
  unfold run. rewrite get_params_eq, get_variables_eq. cbn [fst].
  intros Hc Hps Hvs Hd.
  rewrite add_fuel_eq, Hps, Hvs, fuel_kwargs by done.
  by apply super_add_edge_ok.
Qed.

(** The states the two methods reach from a consistent graph are consistent. *)
Lemma add_technology_consistent label ty layer index w :
  DiGraph.consistent (graph w) →
  DiGraph.consistent (graph (exec (add_technology label ty layer index) w)).
Proof.
  intros Hc. unfold exec.
  destruct (add_technology_cases label ty layer index w) as [[e ->]|[attr ->]];
    [done|].
  rewrite super_eq. cbn. by apply add_node_consistent.
Qed.

Lemma add_fuel_cases a b fl ft index w :
  (∃ e, add_fuel a b fl ft index w = (Raise e, w)) ∨
  (∃ attr, add_fuel a b fl ft index w = super (DiGraph.add_edge a b attr) w).
Proof.
  rewrite add_fuel_eq.
  destruct (query "params" _ _); [|eauto].
  destruct (query "variables" _ _); [|eauto].
  destruct (call_kwargs _ _ _); eauto.
Qed.

Lemma add_fuel_consistent a b fl ft index w :
  DiGraph.consistent (graph w) →
  DiGraph.consistent (graph (exec (add_fuel a b fl ft index) w)).
Proof.
  intros Hc. unfold exec.
  destruct (add_fuel_cases a b fl ft index w) as [[e ->]|[attr ->]]; [done|].
  rewrite super_eq. cbn. by apply add_edge_consistent.
Qed.

Lemma exec_bind_ok {S A B} (m : M S A) (k : A → M S B) s :
  exec (m ≫= k) s
  = match run m s with
    | Ok a => exec (k a) (exec m s)
    | Raise _ => exec m s
    end.
Proof. unfold_monad. by destruct (m s) as [[a|e] s']. Qed.

Lemma new_consistent fs path :
  DiGraph.consistent (graph (new fs path).2).
Proof.
  unfold new, __init__, __post_init__, load_structure, open_json_load, print,
    super, DiGraph.__init__.
  unfold_monad. cbn.
  destruct (fs !! _) as [[doc|e]|]; cbn; [| |apply consistent_empty].
  - apply consistent_empty.
  - destruct (decide (e = FileNotFoundError)); cbn; apply consistent_empty.
Qed.

Lemma two_technologies_consistent : DiGraph.consistent (graph two_technologies).
Proof.
  unfold two_technologies. rewrite exec_bind_ok.
  assert (Hc1 : DiGraph.consistent
    (graph (exec (add_technology "PWRGEO" "Geothermal Power Plant" 0 None)
                 (world_of capacity_skeleton))))
    by apply add_technology_consistent, new_consistent.
  destruct (run _ _); [|done].
  rewrite exec_bind_ok.
  destruct (run _ _); [|by apply add_technology_consistent].
  by apply add_fuel_consistent, add_technology_consistent.
Qed.

(** Lookup in the keyword attributes of the two calls. *)
Lemma insert3_lookup (a b c : string) (x y z : value) (ps vs : attrs) fixed k d :
  a ≠ b → a ≠ c → b ≠ c →
  a ∈ fixed → b ∈ fixed → c ∈ fixed →
  distinct_keywords fixed ps vs →
  (<[a := x]> (<[b := y]> (<[c := z]> (ps ∪ vs)))) !! k = Some d ↔
    (k = a ∧ d = x) ∨ (k = b ∧ d = y) ∨ (k = c ∧ d = z) ∨
    ps !! k = Some d ∨ vs !! k = Some d.
Proof.
  intros Hab Hac Hbc Ha Hb Hc Hd.
  destruct (distinct_keywords_lookup _ _ _ a Hd Ha) as [Hpa Hva].
  destruct (distinct_keywords_lookup _ _ _ b Hd Hb) as [Hpb Hvb].
  destruct (distinct_keywords_lookup _ _ _ c Hd Hc) as [Hpc Hvc].
  rewrite !lookup_insert.
  repeat case_decide; subst.
  - split; [intros [= <-]; auto|]. intros [[_ ->]|[[? _]|[[? _]|[?|?]]]]; congruence.
  - split; [intros [= <-]; auto|]. intros [[? _]|[[_ ->]|[[? _]|[?|?]]]]; congruence.
  - split; [intros [= <-]; auto 6|]. intros [[? _]|[[? _]|[[_ ->]|[?|?]]]]; congruence.
  - rewrite lookup_union_Some by apply Hd. split; [auto 6|].
    intros [[? _]|[[? _]|[[? _]|?]]]; congruence || done.
Qed.

Lemma queries_declare index ps vs w :
  Schema.well_formed (structure (self w)) = true →
  run (get_params index) w = Ok ps →
  run (get_variables index) w = Ok vs →
  ∀ k d,
    (ps !! k = Some d ↔
       Schema.declares (Schema.collection "params" (structure (self w))) k index d) ∧
    (vs !! k = Some d ↔
       Schema.declares (Schema.collection "variables" (structure (self w))) k index d).
Proof.
  intros Hwf Hps Hvs k d.
  unfold run in Hps, Hvs. rewrite get_params_eq in Hps.
  rewrite get_variables_eq in Hvs. cbn [fst] in Hps, Hvs.
  destruct (well_formed_queries index _ Hwf)
    as (ps' & vs' & Hps' & Hvs' & Hp & Hv).
  rewrite Hps in Hps'. rewrite Hvs in Hvs'. simplify_eq. by split.
Qed.

(** C2, as the code has it.  With the index argument left at its default, which is
    the code ["t"], and a well-formed schema whose entries for ["t"] repeat
    no keyword, [add_technology label type layer] returns normally and the
    node's attributes are then exactly: the type under [tech_type], the
    layer under [layer], ["t"] under [index], and one entry per parameter
    and per variable declared for ["t"], each at its declared default;
    a node that existed before keeps its other attributes. *)
Theorem add_technology_default_index_attrs (w : world) (label ty : string)
    (layer : Z) (ps vs : attrs) :
  Schema.well_formed (structure (self w)) = true →
  DiGraph.consistent (graph w) →
  run (get_params "t") w = Ok ps →
  run (get_variables "t") w = Ok vs →
  distinct_keywords add_node_names ps vs →
  ∃ w' kw,
    add_technology label ty layer None w = (Ok tt, w') ∧
    DiGraph.node_attrs (graph w') label
      = Some (kw ∪ default ∅ (DiGraph.node_attrs (graph w) label)) ∧
    ∀ k d, kw !! k = Some d ↔
      (k = "tech_type" ∧ d = VStr ty) ∨
      (k = "layer" ∧ d = VInt layer) ∨
      (k = "index" ∧ d = VStr "t") ∨
      Schema.declares (Schema.collection "params" (structure (self w))) k "t" d ∨
      Schema.declares (Schema.collection "variables" (structure (self w))) k "t" d.
Proof.
  intros Hwf Hc Hps Hvs Hd.
  eexists _, (technology_attrs ty layer "t" ps vs). split; [|split].
  - by apply (add_technology_ok label ty layer None ps vs).
  - cbn. by apply add_node_consistent.
  - intros k d. unfold technology_attrs.
    rewrite (insert3_lookup _ _ _ _ _ _ ps vs add_node_names k d);
      [|done|done|done|in_list|in_list|in_list|done].
    destruct (queries_declare "t" ps vs w Hwf Hps Hvs k d) as [-> ->]. done.
Qed.

(** The scenario of the specification, on the code: the parameter declared
    for ["technology"] is not attached, the type is under [tech_type] and
    the index is ["t"]. *)
Lemma add_technology_default_index_counterexample :
  DiGraph.node_attrs (graph after_pwrgeo) "PWRGEO"
    = Some (<["tech_type" := VStr "Geothermal Power Plant"]>
              (<["layer" := VInt 0]> {["index" := VStr "t"]})) ∧
  DiGraph.node_attrs (graph after_pwrgeo) "PWRGEO"
    ≠ Some (<["type" := VStr "Geothermal Power Plant"]>
              (<["layer" := VInt 0]>
                 (<["index" := VStr "technology"]> {["Capacity" := VInt 0]}))).
Proof.
  split; [by_computation|].
  intros H. apply (f_equal (λ o, a ← o; a !! "type")) in H.
  vm_compute in H. discriminate.
Qed.

Lemma add_technology_default_index_attrs_witness :
  ∃ w' kw,
    add_technology "PWRGEO" "Geothermal Power Plant" 0 None
      (world_of capacity_skeleton) = (Ok tt, w') ∧
    DiGraph.node_attrs (graph w') "PWRGEO"
      = Some (kw ∪ default ∅
                (DiGraph.node_attrs (graph (world_of capacity_skeleton)) "PWRGEO")) ∧
    ∀ k d, kw !! k = Some d ↔
      (k = "tech_type" ∧ d = VStr "Geothermal Power Plant") ∨
      (k = "layer" ∧ d = VInt 0) ∨
      (k = "index" ∧ d = VStr "t") ∨
      Schema.declares
        (Schema.collection "params" (structure (self (world_of capacity_skeleton))))
        k "t" d ∨
      Schema.declares
        (Schema.collection "variables" (structure (self (world_of capacity_skeleton))))
        k "t" d.
Proof.
  apply (add_technology_default_index_attrs (world_of capacity_skeleton)
           "PWRGEO" "Geothermal Power Plant" 0
           {["Capacity" := VInt 0]} {["NewCapacity" := VNone]}).
  - vm_compute. reflexivity.
  - repeat split.
  - vm_compute. reflexivity.
  - vm_compute. reflexivity.
  - split; [decide_by_computation|]. repeat constructor.
Defined.

(** C5, as the code has it.  When a key occurs both among the keywords
    [add_technology] writes out ([tech_type], [layer], [index]) and among
    the defaults [get_params] or [get_variables] return for the index, the
    call raises [TypeError] (a keyword passed twice) and changes nothing;
    neither value takes precedence. *)
Theorem add_technology_keyword_clash (w : world) (label ty : string) (layer : Z)
    (index : option string) (ps vs : attrs) (k : string) :
  run (get_params (default "t" index)) w = Ok ps →
  run (get_variables (default "t" index)) w = Ok vs →
  k ∈ ["tech_type"; "layer"; "index"] →
  is_Some (ps !! k) ∨ is_Some (vs !! k) →
  add_technology label ty layer index w = (Raise TypeError, w).
Proof.
  unfold run. rewrite get_params_eq, get_variables_eq. cbn [fst].
  intros Hps Hvs Hk Hclash.
  rewrite add_technology_eq, Hps, Hvs.
  by rewrite (call_kwargs_clash _ _ ps vs k).
Qed.

Lemma add_technology_keyword_clash_witness :
  add_technology "PWRGEO" "Geothermal Power Plant" 0 None (world_of layer_skeleton)
  = (Raise TypeError, world_of layer_skeleton).
Proof.
  apply (add_technology_keyword_clash (world_of layer_skeleton)
           "PWRGEO" "Geothermal Power Plant" 0 None
           {["layer" := VInt 7]} ∅ "layer").
  - vm_compute. reflexivity.
  - vm_compute. reflexivity.
  - apply list_elem_of_In. simpl. auto.
  - left. vm_compute. eauto.
Defined.

(** The key [layer] is both written out by the call and a default of the
    schema for ["t"]; the call does not succeed, so no value of the caller
    is stored. *)
Lemma add_technology_keyword_clash_counterexample :
  run (get_params "t") (world_of layer_skeleton) = Ok {["layer" := VInt 7]} ∧
  ¬ (run (add_technology "PWRGEO" "Geothermal Power Plant" 0 None)
         (world_of layer_skeleton) = Ok tt ∧
     (a ← DiGraph.node_attrs
            (graph (exec (add_technology "PWRGEO" "Geothermal Power Plant" 0 None)
                         (world_of layer_skeleton))) "PWRGEO";
      a !! "layer") = Some (VInt 0)).
Proof.
  split; [by_computation|]. intros [H _]. vm_compute in H. discriminate.
Qed.

(** ** Adding a fuel *)

(** C4, as the code has it.  With the index argument left at its default, which is
    the code ["f"], a well-formed schema whose entries for ["f"] repeat no
    keyword, [a] distinct from [b] and no edge from [b] to [a],
    [add_fuel a b fuel_label fuel_type] returns normally; afterwards there
    is an edge from [a] to [b] whose attributes are [fuel_label],
    [fuel_type], [index] equal to ["f"] and the parameters and variables
    declared for ["f"] at their defaults (over what the edge carried
    before, if it existed); it is one edge: every other ordered pair is as
    before, the edge count grows by one exactly when the edge is new, and
    [(b, a)] is still not an edge. *)
Theorem add_fuel_default_index_edge (w : world) (a b fl ft : string)
    (ps vs : attrs) :
  Schema.well_formed (structure (self w)) = true →
  DiGraph.consistent (graph w) →
  run (get_params "f") w = Ok ps →
  run (get_variables "f") w = Ok vs →
  distinct_keywords add_edge_names ps vs →
  a ≠ b →
  DiGraph.has_edge (graph w) b a = false →
  ∃ w' kw,
    add_fuel a b fl ft None w = (Ok tt, w') ∧
    DiGraph.get_edge_data (graph w') a b
      = Some (kw ∪ default ∅ (DiGraph.get_edge_data (graph w) a b)) ∧
    (∀ k d, kw !! k = Some d ↔
      (k = "fuel_label" ∧ d = VStr fl) ∨
      (k = "fuel_type" ∧ d = VStr ft) ∨
      (k = "index" ∧ d = VStr "f") ∨
      Schema.declares (Schema.collection "params" (structure (self w))) k "f" d ∨
      Schema.declares (Schema.collection "variables" (structure (self w))) k "f" d) ∧
    DiGraph.has_edge (graph w') a b = true ∧
    DiGraph.has_edge (graph w') b a = false ∧
    (∀ x y, (x, y) ≠ (a, b) →
       DiGraph.get_edge_data (graph w') x y = DiGraph.get_edge_data (graph w) x y) ∧
    DiGraph.number_of_edges (graph w')
      = (if DiGraph.has_edge (graph w) a b then DiGraph.number_of_edges (graph w)
         else Datatypes.S (DiGraph.number_of_edges (graph w))).
Proof.
  intros Hwf Hc Hps Hvs Hd Hab Hba.
  eexists _, (fuel_attrs fl ft "f" ps vs).
  split; [by apply (add_fuel_ok a b fl ft None ps vs)|].
  split_and!.
  - cbn. by apply add_edge_edge_data.
  - intros k d. unfold fuel_attrs.
    rewrite (insert3_lookup _ _ _ _ _ _ ps vs add_edge_names k d);
      [|done|done|done|in_list|in_list|in_list|done].
    by destruct (queries_declare "f" ps vs w Hwf Hps Hvs k d) as [-> ->].
  - cbn. apply has_edge_data. rewrite add_edge_edge_data by done. eauto.
  - cbn. apply has_edge_false. rewrite add_edge_edge_data_other by congruence.
    by apply has_edge_false.
  - intros x y Hxy. cbn. by apply add_edge_edge_data_other.
  - cbn. by apply add_edge_number_of_edges.
Qed.

Lemma add_fuel_default_index_edge_witness :
  ∃ w' kw,
    add_fuel "PWRGEO" "PWRTRN" "ELC001" "Electricity before Transmission" None
      (world_of capacity_skeleton) = (Ok tt, w') ∧
    DiGraph.get_edge_data (graph w') "PWRGEO" "PWRTRN"
      = Some (kw ∪ default ∅
                (DiGraph.get_edge_data (graph (world_of capacity_skeleton))
                   "PWRGEO" "PWRTRN")) ∧
    (∀ k d, kw !! k = Some d ↔
      (k = "fuel_label" ∧ d = VStr "ELC001") ∨
      (k = "fuel_type" ∧ d = VStr "Electricity before Transmission") ∨
      (k = "index" ∧ d = VStr "f") ∨
      Schema.declares
        (Schema.collection "params" (structure (self (world_of capacity_skeleton))))
        k "f" d ∨
      Schema.declares
        (Schema.collection "variables" (structure (self (world_of capacity_skeleton))))
        k "f" d) ∧
    DiGraph.has_edge (graph w') "PWRGEO" "PWRTRN" = true ∧
    DiGraph.has_edge (graph w') "PWRTRN" "PWRGEO" = false ∧
    (∀ x y, (x, y) ≠ ("PWRGEO", "PWRTRN") →
       DiGraph.get_edge_data (graph w') x y
       = DiGraph.get_edge_data (graph (world_of capacity_skeleton)) x y) ∧
    DiGraph.number_of_edges (graph w')
      = (if DiGraph.has_edge (graph (world_of capacity_skeleton)) "PWRGEO" "PWRTRN"
         then DiGraph.number_of_edges (graph (world_of capacity_skeleton))
         else Datatypes.S (DiGraph.number_of_edges (graph (world_of capacity_skeleton)))).
Proof.
  apply (add_fuel_default_index_edge (world_of capacity_skeleton)
           "PWRGEO" "PWRTRN" "ELC001" "Electricity before Transmission"
           {["Capacity" := VInt 0]} ∅).
  - vm_compute. reflexivity.
  - repeat split.
  - vm_compute. reflexivity.
  - vm_compute. reflexivity.
  - split; [decide_by_computation|]. repeat constructor.
  - discriminate.
  - vm_compute. reflexivity.
Defined.

(** On the code the edge carries the index ["f"], not ["fuel"]. *)
Lemma add_fuel_default_index_counterexample :
  (a ← DiGraph.get_edge_data (graph after_fuel) "PWRGEO" "PWRTRN"; a !! "index")
    = Some (VStr "f") ∧
  (a ← DiGraph.get_edge_data (graph after_fuel) "PWRGEO" "PWRTRN"; a !! "index")
    ≠ Some (VStr "fuel").
Proof.
  split; [by_computation|]. intros H. vm_compute in H. discriminate.
Qed.

(** C6, as the code has it.  When the schema lookups for the default index ["f"]
    succeed and repeat no keyword, [add_fuel a b fuel_label fuel_type]
    with [b] carrying no attributes (not a node, or a bare one) returns
    normally: the edge from [a] to [b] exists and [b] is a node whose
    attribute dictionary is empty, so it has no type and no layer. *)
Theorem add_fuel_bare_endpoint (w : world) (a b fl ft : string) (ps vs : attrs) :
  DiGraph.consistent (graph w) →
  run (get_params "f") w = Ok ps →
  run (get_variables "f") w = Ok vs →
  distinct_keywords add_edge_names ps vs →
  default ∅ (DiGraph.node_attrs (graph w) b) = ∅ →
  ∃ w',
    add_fuel a b fl ft None w = (Ok tt, w') ∧
    DiGraph.has_edge (graph w') a b = true ∧
    DiGraph.has_node (graph w') b = true ∧
    DiGraph.node_attrs (graph w') b = Some ∅.
Proof.
  intros Hc Hps Hvs Hd Hbare.
  eexists. split; [by apply (add_fuel_ok a b fl ft None ps vs)|].
  cbn.
  assert (Hb : DiGraph.node_attrs
                 (exec (DiGraph.add_edge a b (fuel_attrs fl ft "f" ps vs)) (graph w)) b
               = Some ∅).
  { rewrite add_edge_node_attrs_endpoint by auto. by rewrite Hbare. }
  split_and!.
  - apply has_edge_data. rewrite add_edge_edge_data by done. eauto.
  - unfold DiGraph.has_node. apply has_key_true.
    unfold DiGraph.node_attrs in Hb. rewrite Hb. eauto.
  - done.
Qed.

Lemma add_fuel_bare_endpoint_witness :
  ∃ w',
    add_fuel "PWRGEO" "PWRTRN" "ELC001" "Electricity before Transmission" None
      (exec (add_technology "PWRGEO" "Geothermal Power Plant" 0 None)
            (world_of capacity_skeleton)) = (Ok tt, w') ∧
    DiGraph.has_edge (graph w') "PWRGEO" "PWRTRN" = true ∧
    DiGraph.has_node (graph w') "PWRTRN" = true ∧
    DiGraph.node_attrs (graph w') "PWRTRN" = Some ∅.
Proof.
  apply (add_fuel_bare_endpoint
           (exec (add_technology "PWRGEO" "Geothermal Power Plant" 0 None)
                 (world_of capacity_skeleton))
           "PWRGEO" "PWRTRN" "ELC001" "Electricity before Transmission"
           {["Capacity" := VInt 0]} ∅).
  - apply add_technology_consistent. repeat split.
  - vm_compute. reflexivity.
  - vm_compute. reflexivity.
  - split; [decide_by_computation|]. repeat constructor.
  - vm_compute. reflexivity.
Defined.

(** With a parameter named [fuel_type] declared for ["f"], the call raises
    although [PWRTRN] is not a node, and no edge is made. *)
Lemma add_fuel_bare_endpoint_counterexample :
  DiGraph.has_node (graph (world_of layer_skeleton)) "PWRTRN" = false ∧
  run (add_fuel "PWRGEO" "PWRTRN" "ELC001" "Electricity before Transmission" None)
      (world_of layer_skeleton) = Raise TypeError ∧
  DiGraph.has_edge
    (graph (exec (add_fuel "PWRGEO" "PWRTRN" "ELC001"
                    "Electricity before Transmission" None)
                 (world_of layer_skeleton))) "PWRGEO" "PWRTRN" = false.
Proof. repeat split; by_computation. Qed.

(** ** Adding again *)

(** C8, as the code has it.  Adding again a label that is already a node, or an
    ordered pair that is already an edge, does not fail on that account.
    The two cases stand each on its own: for a label that is a node,
    whether or not the graph has any edge, and for a pair that is an edge.
    Whenever the keyword attributes of the call are well formed (the schema
    lookups for its index succeed and repeat no keyword) the call returns
    normally, the new attributes are merged over those the node or the
    edge had, new values replacing old ones, and neither the node count
    nor the edge count changes. *)
Theorem add_again_merges (w : world) (label ty : string) (layer : Z)
    (index : option string) (a b fl ft : string) (findex : option string)
    (ps vs fps fvs : attrs) :
  DiGraph.consistent (graph w) →
  (DiGraph.has_node (graph w) label = true →
   run (get_params (default "t" index)) w = Ok ps →
   run (get_variables (default "t" index)) w = Ok vs →
   distinct_keywords add_node_names ps vs →
   ∃ w',
     add_technology label ty layer index w = (Ok tt, w') ∧
     DiGraph.number_of_nodes (graph w') = DiGraph.number_of_nodes (graph w) ∧
     DiGraph.number_of_edges (graph w') = DiGraph.number_of_edges (graph w) ∧
     DiGraph.node_attrs (graph w') label
       = Some (technology_attrs ty layer (default "t" index) ps vs
               ∪ default ∅ (DiGraph.node_attrs (graph w) label))) ∧
  (DiGraph.has_edge (graph w) a b = true →
   run (get_params (default "f" findex)) w = Ok fps →
   run (get_variables (default "f" findex)) w = Ok fvs →
   distinct_keywords add_edge_names fps fvs →
   ∃ w',
     add_fuel a b fl ft findex w = (Ok tt, w') ∧
     DiGraph.number_of_edges (graph w') = DiGraph.number_of_edges (graph w) ∧
     DiGraph.number_of_nodes (graph w') = DiGraph.number_of_nodes (graph w) ∧
     DiGraph.get_edge_data (graph w') a b
       = Some (fuel_attrs fl ft (default "f" findex) fps fvs
               ∪ default ∅ (DiGraph.get_edge_data (graph w) a b))).
Proof.
  intros Hc. split.
  - intros Hnode Hps Hvs Hd.
    eexists. split; [by apply (add_technology_ok label ty layer index ps vs)|].
    cbn.
    destruct (add_node_consistent label
                (technology_attrs ty layer (default "t" index) ps vs) (graph w) Hc)
      as (_ & _ & Hattrs & Hcount).
    rewrite Hnode in Hcount. split_and!; [done| |done].
    apply add_node_number_of_edges.
  - intros Hedge Hfps Hfvs Hfd.
    eexists. split; [by apply (add_fuel_ok a b fl ft findex fps fvs)|].
    cbn. split_and!.
    + rewrite add_edge_number_of_edges by done. by rewrite Hedge.
    + by apply add_edge_again_number_of_nodes.
    + by apply add_edge_edge_data.
Qed.

(** The first half on a graph with one node and no edge, the second on a
    graph whose edge from [PWRGEO] to [PWRTRN] exists. *)
Lemma add_again_merges_witness :
  DiGraph.number_of_edges
    (graph (exec (add_technology "PWRGEO" "Geothermal Power Plant" 0 None)
                 (world_of capacity_skeleton))) = 0 ∧
  (∃ w',
     add_technology "PWRGEO" "Geothermal Power Station" 2 None
       (exec (add_technology "PWRGEO" "Geothermal Power Plant" 0 None)
             (world_of capacity_skeleton))
       = (Ok tt, w') ∧
     DiGraph.number_of_nodes (graph w')
       = DiGraph.number_of_nodes
           (graph (exec (add_technology "PWRGEO" "Geothermal Power Plant" 0 None)
                        (world_of capacity_skeleton))) ∧
     DiGraph.number_of_edges (graph w')
       = DiGraph.number_of_edges
           (graph (exec (add_technology "PWRGEO" "Geothermal Power Plant" 0 None)
                        (world_of capacity_skeleton))) ∧
     DiGraph.node_attrs (graph w') "PWRGEO"
       = Some (technology_attrs "Geothermal Power Station" 2 "t"
                 {["Capacity" := VInt 0]} {["NewCapacity" := VNone]}
               ∪ default ∅
                   (DiGraph.node_attrs
                      (graph (exec (add_technology "PWRGEO" "Geothermal Power Plant"
                                      0 None)
                                   (world_of capacity_skeleton))) "PWRGEO"))) ∧
  (∃ w',
     add_fuel "PWRGEO" "PWRTRN" "ELC009" "Electricity" None two_technologies
       = (Ok tt, w') ∧
     DiGraph.number_of_edges (graph w') = DiGraph.number_of_edges (graph two_technologies) ∧
     DiGraph.number_of_nodes (graph w') = DiGraph.number_of_nodes (graph two_technologies) ∧
     DiGraph.get_edge_data (graph w') "PWRGEO" "PWRTRN"
       = Some (fuel_attrs "ELC009" "Electricity" "f" {["Capacity" := VInt 0]} ∅
               ∪ default ∅ (DiGraph.get_edge_data (graph two_technologies)
                              "PWRGEO" "PWRTRN"))).
Proof.
  split; [vm_compute; reflexivity|]. split.
  - apply (add_again_merges
             (exec (add_technology "PWRGEO" "Geothermal Power Plant" 0 None)
                   (world_of capacity_skeleton))
             "PWRGEO" "Geothermal Power Station" 2 None
             "PWRGEO" "PWRTRN" "ELC009" "Electricity" None
             {["Capacity" := VInt 0]} {["NewCapacity" := VNone]}
             {["Capacity" := VInt 0]} ∅).
    + apply add_technology_consistent. repeat split.
    + vm_compute. reflexivity.
    + vm_compute. reflexivity.
    + vm_compute. reflexivity.
    + split; [decide_by_computation|]. repeat constructor.
  - apply (add_again_merges two_technologies
             "PWRGEO" "Geothermal Power Station" 2 None
             "PWRGEO" "PWRTRN" "ELC009" "Electricity" None
             {["Capacity" := VInt 0]} {["NewCapacity" := VNone]}
             {["Capacity" := VInt 0]} ∅).
    + apply two_technologies_consistent.
    + vm_compute. reflexivity.
    + vm_compute. reflexivity.
    + vm_compute. reflexivity.
    + split; [decide_by_computation|]. repeat constructor.
Defined.

(** A label added under the default index and added again under the index
    [x], for which the schema declares a parameter named [layer]: the
    second call raises. *)
Lemma add_again_counterexample :
  run (add_technology "PWRGEO" "Geothermal Power Plant" 0 None)
      (world_of layer_x_skeleton) = Ok tt ∧
  DiGraph.has_node (graph after_pwrgeo_x) "PWRGEO" = true ∧
  run (add_technology "PWRGEO" "Geothermal Power Plant" 0 (Some "x"))
      after_pwrgeo_x = Raise TypeError.
Proof. repeat split; by_computation. Qed.

(** * Beyond the claims: the rest of the module *)

(** ** A call is a plan followed by one container operation *)

Lemma world_eta w : set_self (set_base (graph w)) w = w.
Proof. by destruct w as [[? ? ?] ? ?]. Qed.

Lemma perform_eq c w :
  perform c w =
  match plan (structure (self w)) c with
  | Raise e => (Raise e, w)
  | Ok o => super (apply_op o) w
  end.
Proof.
  destruct c as [l ty lay idx|a b fl ft idx]; cbn [perform plan].
  - rewrite add_technology_eq.
    destruct (query "params" _ _); [|done].
    destruct (query "variables" _ _); [|done].
    by destruct (call_kwargs _ _ _).
  - rewrite add_fuel_eq.
    destruct (query "params" _ _); [|done].
    destruct (query "variables" _ _); [|done].
    by destruct (call_kwargs _ _ _).
Qed.

Lemma apply_op_run o g : DiGraph.consistent g → run (apply_op o) g = Ok tt.
Proof.
  intros Hc. destruct o; cbn.
  - by apply add_node_consistent.
  - by apply add_edge_run.
Qed.

Lemma apply_op_consistent o g :
  DiGraph.consistent g → DiGraph.consistent (exec (apply_op o) g).
Proof.
  intros Hc. destruct o; cbn.
  - by apply add_node_consistent.
  - by apply add_edge_consistent.
Qed.

(** On a consistent graph a call raises only in its plan. *)
Lemma perform_consistent_eq c w :
  DiGraph.consistent (graph w) →
  perform c w =
  match plan (structure (self w)) c with
  | Raise e => (Raise e, w)
  | Ok o => (Ok tt, set_self (set_base (exec (apply_op o) (graph w))) w)
  end.
Proof.
  intros Hc. rewrite perform_eq. destruct (plan _ c) as [o|e]; [|done].
  by rewrite super_eq, apply_op_run.
Qed.

Lemma perform_structure c w :
  structure (self (exec (perform c) w)) = structure (self w).
Proof.
  unfold exec. rewrite perform_eq. destruct (plan _ c) as [o|e]; [|done].
  by rewrite super_eq.
Qed.

Lemma perform_consistent c w :
  DiGraph.consistent (graph w) → DiGraph.consistent (graph (exec (perform c) w)).
Proof.
  intros Hc. unfold exec. rewrite perform_consistent_eq by done.
  destruct (plan _ c) as [o|e]; [|done]. cbn. by apply apply_op_consistent.
Qed.

(** The keyword binding read backwards: a bound call had distinct keywords. *)
Lemma call_kwargs_ok_inv (positional : list string) (a b c : string)
    (x y z : value) (ps vs kw : attrs) :
  call_kwargs positional [(a, x); (b, y); (c, z)] [ps; vs] = Ok kw →
  distinct_keywords (positional ++ [a; b; c])%list ps vs.
Proof.
  unfold call_kwargs. cbn [merge_stars].
  destruct (decide (ps ##ₘ _)) as [Hps|]; [|done].
  destruct (decide (vs ##ₘ _)) as [Hvs|]; [|done].
  destruct (existsb _ positional) eqn:Hpos; [done|]. intros _.
  assert (Hexp : ∀ k, k ∈ [a; b; c] →
            is_Some ((list_to_map [(a, x); (b, y); (c, z)] : attrs) !! k)).
  { intros k Hk. apply not_eq_None_Some. intros Hn%not_elem_of_list_to_map.
    by apply Hn. }
  split.
  - apply map_disjoint_spec. intros k u v Hu Hv.
    apply (proj1 (map_disjoint_spec _ _) Hvs k v u Hv).
    apply lookup_union_Some_raw. by left.
  - apply Forall_forall. intros k [Hk|Hk]%elem_of_app.
    + apply not_true_iff_false in Hpos. rewrite existsb_exists in Hpos.
      assert (Hkw : has_key (vs ∪ (ps ∪ list_to_map [(a, x); (b, y); (c, z)])) k = false).
      { apply not_true_iff_false. intros Hh. apply Hpos. exists k.
        split; [by apply list_elem_of_In|done]. }
      apply has_key_false in Hkw.
      apply lookup_union_None in Hkw as [Hv Hp].
      apply lookup_union_None in Hp as [Hp _]. done.
    + destruct (Hexp k Hk) as [e He]. split.
      * destruct (ps !! k) as [u|] eqn:Hu; [|done].
        by destruct (proj1 (map_disjoint_spec _ _) Hps k u e Hu He).
      * destruct (vs !! k) as [u|] eqn:Hu; [|done].
        assert (is_Some ((ps ∪ list_to_map [(a, x); (b, y); (c, z)]) !! k)) as [e' He'].
        { rewrite lookup_union, He. destruct (ps !! k); cbn; eauto. }
        by destruct (proj1 (map_disjoint_spec _ _) Hvs k u e' Hu He').
Qed.

Lemma plan_technology st l ty lay idx :
  (∃ ps vs,
     query "params" (default "t" idx) st = Ok ps ∧
     query "variables" (default "t" idx) st = Ok vs ∧
     distinct_keywords add_node_names ps vs ∧
     plan st (Technology l ty lay idx)
       = Ok (AddNode l (technology_attrs ty lay (default "t" idx) ps vs))) ∨
  (∃ e, plan st (Technology l ty lay idx) = Raise e ∧
     ∀ ps vs,
       query "params" (default "t" idx) st = Ok ps →
       query "variables" (default "t" idx) st = Ok vs →
       ¬ distinct_keywords add_node_names ps vs).
Proof.
  cbn [plan].
  destruct (query "params" _ _) as [ps|e]; [|right; eexists; split; [done|congruence]].
  destruct (query "variables" _ _) as [vs|e]; [|right; eexists; split; [done|congruence]].
  destruct (call_kwargs _ _ _) as [kw|e] eqn:Hkw.
  - left. exists ps, vs. apply call_kwargs_ok_inv in Hkw as Hd.
    rewrite technology_kwargs in Hkw by done. by simplify_eq.
  - right. eexists. split; [done|]. intros ps' vs' [= <-] [= <-] Hd.
    by rewrite technology_kwargs in Hkw.
Qed.

Lemma plan_fuel st a b fl ft idx :
  (∃ ps vs,
     query "params" (default "f" idx) st = Ok ps ∧
     query "variables" (default "f" idx) st = Ok vs ∧
     distinct_keywords add_edge_names ps vs ∧
     plan st (Fuel a b fl ft idx)
       = Ok (AddEdge a b (fuel_attrs fl ft (default "f" idx) ps vs))) ∨
  (∃ e, plan st (Fuel a b fl ft idx) = Raise e ∧
     ∀ ps vs,
       query "params" (default "f" idx) st = Ok ps →
       query "variables" (default "f" idx) st = Ok vs →
       ¬ distinct_keywords add_edge_names ps vs).
Proof.
  cbn [plan].
  destruct (query "params" _ _) as [ps|e]; [|right; eexists; split; [done|congruence]].
  destruct (query "variables" _ _) as [vs|e]; [|right; eexists; split; [done|congruence]].
  destruct (call_kwargs _ _ _) as [kw|e] eqn:Hkw.
  - left. exists ps, vs. apply call_kwargs_ok_inv in Hkw as Hd.
    rewrite fuel_kwargs in Hkw by done. by simplify_eq.
  - right. eexists. split; [done|]. intros ps' vs' [= <-] [= <-] Hd.
    by rewrite fuel_kwargs in Hkw.
Qed.

(** ** When a call returns, and what a failed call leaves *)

Lemma add_node_raise_unchanged n attr g e :
  run (DiGraph.add_node n attr) g = Raise e →
  exec (DiGraph.add_node n attr) g = g.
Proof.
  unfold run, exec. rewrite add_node_eq.
  destruct (has_key _ n); [|done]. by destruct (DiGraph._node g !! n).
Qed.

(** X1. A call of [add_technology] that raises, for whatever reason and
    from whatever state, leaves the object, the files and the output
    exactly as they were: no node is half added. *)
Theorem add_technology_raise_unchanged (w : world) (label ty : string) (layer : Z)
    (index : option string) (e : exn) :
  run (add_technology label ty layer index) w = Raise e →
  exec (add_technology label ty layer index) w = w.
Proof.
  unfold run, exec.
  destruct (add_technology_cases label ty layer index w) as [[e' ->]|[attr ->]];
    [done|].
  rewrite super_eq. cbn [fst snd]. intros Hr.
  rewrite (add_node_raise_unchanged _ _ _ _ Hr). apply world_eta.
Qed.

Lemma add_technology_raise_unchanged_witness :
  exec (add_technology "PWRGEO" "Geothermal Power Plant" 0 None)
       (world_of layer_skeleton)
  = world_of layer_skeleton.
Proof.
  apply (add_technology_raise_unchanged (world_of layer_skeleton)
           "PWRGEO" "Geothermal Power Plant" 0 None TypeError).
  vm_compute. reflexivity.
Defined.

(** X2. On a graph whose dictionaries are consistent, a call of
    [add_fuel] that raises leaves the object, the files and the output
    exactly as they were: neither an endpoint nor the edge is added. *)
Theorem add_fuel_raise_unchanged (w : world) (a b fl ft : string)
    (index : option string) (e : exn) :
  DiGraph.consistent (graph w) →
  run (add_fuel a b fl ft index) w = Raise e →
  exec (add_fuel a b fl ft index) w = w.
Proof.
  intros Hc. unfold run, exec.
  change (add_fuel a b fl ft index w) with (perform (Fuel a b fl ft index) w).
  rewrite perform_consistent_eq by done.
  by destruct (plan _ _).
Qed.

Lemma add_fuel_raise_unchanged_witness :
  exec (add_fuel "PWRGEO" "PWRTRN" "ELC001" "Electricity before Transmission" None)
       (world_of layer_skeleton)
  = world_of layer_skeleton.
Proof.
  apply (add_fuel_raise_unchanged (world_of layer_skeleton)
           "PWRGEO" "PWRTRN" "ELC001" "Electricity before Transmission" None
           TypeError).
  - repeat split.
  - vm_compute. reflexivity.
Defined.

(** X3. On a consistent graph, whether [add_technology] or [add_fuel]
    returns normally is decided by the loaded structure and the index
    alone: the call returns exactly when both schema queries for the
    index succeed and the names they return are distinct from each other
    and from the keywords of the call.  The labels, the type, the layer
    and the content of the graph play no part. *)
Theorem calls_return_iff (w : world) (label ty : string) (layer : Z)
    (index : option string) (a b fl ft : string) (findex : option string) :
  DiGraph.consistent (graph w) →
  (run (add_technology label ty layer index) w = Ok tt ↔
     ∃ ps vs,
       run (get_params (default "t" index)) w = Ok ps ∧
       run (get_variables (default "t" index)) w = Ok vs ∧
       distinct_keywords add_node_names ps vs) ∧
  (run (add_fuel a b fl ft findex) w = Ok tt ↔
     ∃ ps vs,
       run (get_params (default "f" findex)) w = Ok ps ∧
       run (get_variables (default "f" findex)) w = Ok vs ∧
       distinct_keywords add_edge_names ps vs).
Proof.
  intros Hc. unfold run. setoid_rewrite get_params_eq.
  setoid_rewrite get_variables_eq. cbn [fst]. split.
  - change (add_technology label ty layer index w)
      with (perform (Technology label ty layer index) w).
    rewrite perform_consistent_eq by done.
    destruct (plan_technology (structure (self w)) label ty layer index)
      as [(ps & vs & Hps & Hvs & Hd & ->)|(e & -> & Hno)]; cbn [fst].
    + split; [eauto|done].
    + split; [done|]. intros (ps & vs & Hps & Hvs & Hd).
      by destruct (Hno ps vs).
  - change (add_fuel a b fl ft findex w)
      with (perform (Fuel a b fl ft findex) w).
    rewrite perform_consistent_eq by done.
    destruct (plan_fuel (structure (self w)) a b fl ft findex)
      as [(ps & vs & Hps & Hvs & Hd & ->)|(e & -> & Hno)]; cbn [fst].
    + split; [eauto|done].
    + split; [done|]. intros (ps & vs & Hps & Hvs & Hd).
      by destruct (Hno ps vs).
Qed.

Lemma calls_return_iff_witness :
  (run (add_technology "PWRGEO" "Geothermal Power Plant" 0 None)
       (world_of capacity_skeleton) = Ok tt ↔
     ∃ ps vs,
       run (get_params "t") (world_of capacity_skeleton) = Ok ps ∧
       run (get_variables "t") (world_of capacity_skeleton) = Ok vs ∧
       distinct_keywords add_node_names ps vs) ∧
  (run (add_fuel "PWRGEO" "PWRTRN" "ELC001" "Electricity" None)
       (world_of capacity_skeleton) = Ok tt ↔
     ∃ ps vs,
       run (get_params "f") (world_of capacity_skeleton) = Ok ps ∧
       run (get_variables "f") (world_of capacity_skeleton) = Ok vs ∧
       distinct_keywords add_edge_names ps vs).
Proof.
  apply (calls_return_iff (world_of capacity_skeleton)
           "PWRGEO" "Geothermal Power Plant" 0 None
           "PWRGEO" "PWRTRN" "ELC001" "Electricity" None).
  repeat split.
Defined.

(** ** What the container operations do to the two observations *)

Lemma apply_op_node_attrs o g m :
  DiGraph.consistent g →
  DiGraph.node_attrs (exec (apply_op o) g) m =
  match o with
  | AddNode n a =>
      if decide (m = n) then Some (a ∪ default ∅ (DiGraph.node_attrs g m))
      else DiGraph.node_attrs g m
  | AddEdge u v _ =>
      if decide (m = u ∨ m = v) then Some (default ∅ (DiGraph.node_attrs g m))
      else DiGraph.node_attrs g m
  end.
Proof.
  intros Hc. destruct o as [n a|u v a]; cbn [apply_op]; case_decide.
  - subst. by apply add_node_consistent.
  - unfold DiGraph.node_attrs. by apply add_node_node_other.
  - by apply add_edge_node_attrs_endpoint.
  - apply add_edge_node_attrs_other; [done|intros ->; auto..].
Qed.

Lemma apply_op_edge_data o g x y :
  DiGraph.consistent g →
  DiGraph.get_edge_data (exec (apply_op o) g) x y =
  match o with
  | AddNode _ _ => DiGraph.get_edge_data g x y
  | AddEdge u v a =>
      if decide ((x, y) = (u, v))
      then Some (a ∪ default ∅ (DiGraph.get_edge_data g x y))
      else DiGraph.get_edge_data g x y
  end.
Proof.
  intros Hc. destruct o as [n a|u v a]; cbn [apply_op].
  - apply add_node_edge_data.
  - case_decide as Hxy.
    + simplify_eq. by apply add_edge_edge_data.
    + by apply add_edge_edge_data_other.
Qed.

(** A consistent graph is determined by the attributes of its nodes and
    the data of its edges. *)
Lemma consistent_ext g1 g2 :
  DiGraph.consistent g1 → DiGraph.consistent g2 →
  (∀ n, DiGraph.node_attrs g1 n = DiGraph.node_attrs g2 n) →
  (∀ x y, DiGraph.get_edge_data g1 x y = DiGraph.get_edge_data g2 x y) →
  g1 = g2.
Proof.
  destruct g1 as [n1 s1 p1], g2 as [n2 s2 p2].
  unfold DiGraph.consistent, DiGraph.node_attrs, DiGraph.get_edge_data. cbn.
  intros (Hs1 & Hp1 & Hm1) (Hs2 & Hp2 & Hm2) Hn He.
  assert (n1 = n2) as <- by (by apply map_eq).
  assert (s1 = s2) as <-.
  { apply map_eq. intros u.
    destruct (s1 !! u) as [a1|] eqn:H1, (s2 !! u) as [a2|] eqn:H2.
    - f_equal. apply map_eq. intros v. specialize (He u v).
      by rewrite H1, H2 in He.
    - exfalso. apply not_elem_of_dom in H2. apply H2. rewrite Hs2, <- Hs1.
      apply elem_of_dom. eauto.
    - exfalso. apply not_elem_of_dom in H1. apply H1. rewrite Hs1, <- Hs2.
      apply elem_of_dom. eauto.
    - done. }
  assert (p1 = p2) as <-; [|done].
  apply map_eq. intros v.
  destruct (p1 !! v) as [a1|] eqn:H1, (p2 !! v) as [a2|] eqn:H2.
  - f_equal. apply map_eq. intros u.
    specialize (Hm1 u v). specialize (Hm2 u v).
    rewrite H1 in Hm1. rewrite H2 in Hm2. cbn in Hm1, Hm2. congruence.
  - exfalso. apply not_elem_of_dom in H2. apply H2. rewrite Hp2, <- Hp1.
    apply elem_of_dom. eauto.
  - exfalso. apply not_elem_of_dom in H1. apply H1. rewrite Hp1, <- Hp2.
    apply elem_of_dom. eauto.
  - done.
Qed.

Lemma ops_commute o1 o2 g :
  DiGraph.consistent g →
  op_independent o1 o2 →
  exec (apply_op o2) (exec (apply_op o1) g)
  = exec (apply_op o1) (exec (apply_op o2) g).
Proof.
  intros Hc Hind.
  apply consistent_ext; try (by do 2 apply apply_op_consistent).
  - intros m. rewrite !apply_op_node_attrs by (by try apply apply_op_consistent).
    destruct o1 as [n1 a1|u1 v1 a1], o2 as [n2 a2|u2 v2 a2]; cbn in Hind;
      repeat case_decide; simplify_eq; cbn; done.
  - intros x y. rewrite !apply_op_edge_data by (by try apply apply_op_consistent).
    destruct o1 as [n1 a1|u1 v1 a1], o2 as [n2 a2|u2 v2 a2]; cbn in Hind;
      repeat case_decide; simplify_eq; cbn; done.
Qed.

Lemma op_idempotent o g :
  DiGraph.consistent g →
  exec (apply_op o) (exec (apply_op o) g) = exec (apply_op o) g.
Proof.
  intros Hc.
  apply consistent_ext; try (by repeat apply apply_op_consistent).
  - intros m. rewrite !apply_op_node_attrs by (by try apply apply_op_consistent).
    destruct o as [n a|u v a]; case_decide; cbn; try done.
    by rewrite (assoc_L (∪)), (idemp_L (∪)).
  - intros x y. rewrite !apply_op_edge_data by (by try apply apply_op_consistent).
    destruct o as [n a|u v a]; [done|]. case_decide; cbn; [|done].
    by rewrite (assoc_L (∪)), (idemp_L (∪)).
Qed.

Lemma plan_independent st c1 c2 o1 o2 :
  independent c1 c2 →
  plan st c1 = Ok o1 → plan st c2 = Ok o2 → op_independent o1 o2.
Proof.
  destruct c1 as [l1 ty1 lay1 i1|a1 b1 fl1 ft1 i1],
           c2 as [l2 ty2 lay2 i2|a2 b2 fl2 ft2 i2]; cbn [plan independent];
    intros Hind H1 H2;
    repeat match goal with
    | H : match ?x with _ => _ end = Ok _ |- _ => destruct x; try discriminate
    end; by simplify_eq.
Qed.

Lemma graph_set_base g w : graph (set_self (set_base g) w) = g.
Proof. done. Qed.

Lemma exec_perform_graph c w o :
  DiGraph.consistent (graph w) →
  plan (structure (self w)) c = Ok o →
  exec (perform c) w = set_self (set_base (exec (apply_op o) (graph w))) w.
Proof.
  intros Hc Hp. unfold exec. by rewrite perform_consistent_eq, Hp.
Qed.

Lemma exec_perform_raise c w e :
  DiGraph.consistent (graph w) →
  plan (structure (self w)) c = Raise e →
  exec (perform c) w = w.
Proof.
  intros Hc Hp. unfold exec. by rewrite perform_consistent_eq, Hp.
Qed.

Lemma run_perform c w :
  DiGraph.consistent (graph w) →
  run (perform c) w
  = match plan (structure (self w)) c with Ok _ => Ok tt | Raise e => Raise e end.
Proof.
  intros Hc. unfold run. rewrite perform_consistent_eq by done.
  by destruct (plan _ c).
Qed.

(** ** Adding a fuel: what stays *)

(** X4. Frame of [add_fuel]: on a consistent graph, whether the call
    returns or raises, every node that existed keeps exactly its
    attributes (the endpoints included), no node other than the two
    endpoints appears, every other ordered pair keeps its edge data, and
    the loaded structure, the skeleton path, the files and the output are
    unchanged. *)
Theorem add_fuel_frame (w : world) (a b fl ft : string) (index : option string) :
  DiGraph.consistent (graph w) →
  ∃ w', w' = exec (add_fuel a b fl ft index) w ∧
    (∀ n attr, DiGraph.node_attrs (graph w) n = Some attr →
       DiGraph.node_attrs (graph w') n = Some attr) ∧
    (∀ n, n ≠ a → n ≠ b →
       DiGraph.node_attrs (graph w') n = DiGraph.node_attrs (graph w) n) ∧
    (∀ x y, (x, y) ≠ (a, b) →
       DiGraph.get_edge_data (graph w') x y = DiGraph.get_edge_data (graph w) x y) ∧
    structure (self w') = structure (self w) ∧
    skeleton_path (self w') = skeleton_path (self w) ∧
    files w' = files w ∧
    stdout w' = stdout w.
Proof.
  intros Hc. eexists. split; [reflexivity|].
  change (add_fuel a b fl ft index) with (perform (Fuel a b fl ft index)).
  destruct (plan (structure (self w)) (Fuel a b fl ft index)) as [o|e] eqn:Hp.
  2:{ by rewrite (exec_perform_raise _ _ e). }
  rewrite (exec_perform_graph _ _ o) by done.
  assert (∃ attr, o = AddEdge a b attr) as [attr ->].
  { cbn [plan] in Hp.
    repeat match goal with
    | H : match ?x with _ => _ end = Ok _ |- _ => destruct x; try discriminate
    end. simplify_eq. eauto. }
  rewrite graph_set_base. split_and!; try done.
  - intros n attr' Hn. rewrite apply_op_node_attrs by done.
    case_decide; by rewrite Hn.
  - intros n Ha Hb. rewrite apply_op_node_attrs by done.
    rewrite decide_False; [done|]. by intros [?|?].
  - intros x y Hxy. rewrite apply_op_edge_data by done.
    by rewrite decide_False.
Qed.

Lemma add_fuel_frame_witness :
  ∃ w', w' = exec (add_fuel "PWRGEO" "PWRDIS" "ELC002" "Electricity" None)
               two_technologies ∧
    (∀ n attr, DiGraph.node_attrs (graph two_technologies) n = Some attr →
       DiGraph.node_attrs (graph w') n = Some attr) ∧
    (∀ n, n ≠ "PWRGEO" → n ≠ "PWRDIS" →
       DiGraph.node_attrs (graph w') n = DiGraph.node_attrs (graph two_technologies) n) ∧
    (∀ x y, (x, y) ≠ ("PWRGEO", "PWRDIS") →
       DiGraph.get_edge_data (graph w') x y
       = DiGraph.get_edge_data (graph two_technologies) x y) ∧
    structure (self w') = structure (self two_technologies) ∧
    skeleton_path (self w') = skeleton_path (self two_technologies) ∧
    files w' = files two_technologies ∧
    stdout w' = stdout two_technologies.
Proof.
  apply (add_fuel_frame two_technologies "PWRGEO" "PWRDIS" "ELC002" "Electricity" None).
  apply two_technologies_consistent.
Defined.

(** X5. Idempotence of [add_fuel]: on a consistent graph a second call
    with the same arguments returns as the first did and leaves the whole
    state as the first call left it; no parallel edge and no further node
    appear. *)
Theorem add_fuel_idempotent (w : world) (a b fl ft : string)
    (index : option string) :
  DiGraph.consistent (graph w) →
  add_fuel a b fl ft index (exec (add_fuel a b fl ft index) w)
  = (run (add_fuel a b fl ft index) w, exec (add_fuel a b fl ft index) w).
Proof.
  intros Hc.
  change (add_fuel a b fl ft index) with (perform (Fuel a b fl ft index)).
  set (c := Fuel a b fl ft index).
  rewrite run_perform by done.
  rewrite (perform_consistent_eq c (exec (perform c) w))
    by (by apply perform_consistent).
  rewrite perform_structure.
  destruct (plan (structure (self w)) c) as [o|e] eqn:Hp.
  - rewrite (exec_perform_graph c w o) by done.
    rewrite graph_set_base, op_idempotent by done.
    by destruct w as [[? ? ?] ? ?].
  - done.
Qed.

Lemma add_fuel_idempotent_witness :
  add_fuel "PWRGEO" "PWRTRN" "ELC001" "Electricity before Transmission" None
    (exec (add_fuel "PWRGEO" "PWRTRN" "ELC001" "Electricity before Transmission" None)
          (world_of capacity_skeleton))
  = (run (add_fuel "PWRGEO" "PWRTRN" "ELC001" "Electricity before Transmission" None)
         (world_of capacity_skeleton),
     exec (add_fuel "PWRGEO" "PWRTRN" "ELC001" "Electricity before Transmission" None)
          (world_of capacity_skeleton)).
Proof.
  apply (add_fuel_idempotent (world_of capacity_skeleton)
           "PWRGEO" "PWRTRN" "ELC001" "Electricity before Transmission" None).
  repeat split.
Defined.

(** ** The graph only grows *)

Lemma has_node_attrs g n :
  DiGraph.has_node g n = true ↔ is_Some (DiGraph.node_attrs g n).
Proof. apply has_key_true. Qed.

(** X6. Neither method removes anything: after any call of
    [add_technology] or [add_fuel] on a consistent graph, every node is
    still a node and every edge still an edge, and every attribute key a
    node or an edge carried is still carried (its value may have been
    replaced). *)
Theorem calls_only_add (w : world) (c : call) :
  DiGraph.consistent (graph w) →
  (∀ n, DiGraph.has_node (graph w) n = true →
     DiGraph.has_node (graph (exec (perform c) w)) n = true) ∧
  (∀ x y, DiGraph.has_edge (graph w) x y = true →
     DiGraph.has_edge (graph (exec (perform c) w)) x y = true) ∧
  (∀ n a k, DiGraph.node_attrs (graph w) n = Some a → is_Some (a !! k) →
     ∃ a', DiGraph.node_attrs (graph (exec (perform c) w)) n = Some a' ∧
           is_Some (a' !! k)) ∧
  (∀ x y a k, DiGraph.get_edge_data (graph w) x y = Some a → is_Some (a !! k) →
     ∃ a', DiGraph.get_edge_data (graph (exec (perform c) w)) x y = Some a' ∧
           is_Some (a' !! k)).
Proof.
  intros Hc.
  destruct (plan (structure (self w)) c) as [o|e] eqn:Hp.
  2:{ rewrite (exec_perform_raise _ _ e) by done. split_and!; eauto. }
  rewrite (exec_perform_graph _ _ o), graph_set_base by done.
  assert (Hnode : ∀ n a k, DiGraph.node_attrs (graph w) n = Some a →
            is_Some (a !! k) →
            ∃ a', DiGraph.node_attrs (exec (apply_op o) (graph w)) n = Some a' ∧
                  is_Some (a' !! k)).
  { intros n a k Hn Hk. rewrite apply_op_node_attrs, Hn by done.
    destruct o as [m attr|u v attr]; case_decide; cbn; eauto.
    eexists. split; [done|]. destruct Hk as [x Hk].
    rewrite lookup_union, Hk. destruct (attr !! k); cbn; eauto. }
  assert (Hedge : ∀ x y a k, DiGraph.get_edge_data (graph w) x y = Some a →
            is_Some (a !! k) →
            ∃ a', DiGraph.get_edge_data (exec (apply_op o) (graph w)) x y = Some a' ∧
                  is_Some (a' !! k)).
  { intros x y a k Hxy Hk. rewrite apply_op_edge_data, Hxy by done.
    destruct o as [m attr|u v attr]; [eauto|]. case_decide; cbn; eauto.
    eexists. split; [done|]. destruct Hk as [z Hk].
    rewrite lookup_union, Hk. destruct (attr !! k); cbn; eauto. }
  split_and!; [| |done|done].
  - intros n [a Hn]%has_node_attrs. apply has_node_attrs.
    rewrite apply_op_node_attrs, Hn by done.
    destruct o; case_decide; eauto.
  - intros x y [a Hxy]%has_edge_data. apply has_edge_data.
    rewrite apply_op_edge_data, Hxy by done.
    destruct o; [eauto|]. case_decide; eauto.
Qed.

Lemma calls_only_add_witness :
  (∀ n, DiGraph.has_node (graph two_technologies) n = true →
     DiGraph.has_node
       (graph (exec (perform (Technology "PWRGEO" "Spare" 5 (Some "r")))
                    two_technologies)) n = true) ∧
  (∀ x y, DiGraph.has_edge (graph two_technologies) x y = true →
     DiGraph.has_edge
       (graph (exec (perform (Technology "PWRGEO" "Spare" 5 (Some "r")))
                    two_technologies)) x y = true) ∧
  (∀ n a k, DiGraph.node_attrs (graph two_technologies) n = Some a →
     is_Some (a !! k) →
     ∃ a', DiGraph.node_attrs
             (graph (exec (perform (Technology "PWRGEO" "Spare" 5 (Some "r")))
                          two_technologies)) n = Some a' ∧
           is_Some (a' !! k)) ∧
  (∀ x y a k, DiGraph.get_edge_data (graph two_technologies) x y = Some a →
     is_Some (a !! k) →
     ∃ a', DiGraph.get_edge_data
             (graph (exec (perform (Technology "PWRGEO" "Spare" 5 (Some "r")))
                          two_technologies)) x y = Some a' ∧
           is_Some (a' !! k)).
Proof.
  apply (calls_only_add two_technologies (Technology "PWRGEO" "Spare" 5 (Some "r"))).
  apply two_technologies_consistent.
Defined.

(** ** Reachable states *)

Lemma new_inv fs path w :
  new fs path = (Ok tt, w) →
  graph w = DiGraph.mk ∅ ∅ ∅ ∧
  files w = fs ∧
  skeleton_path (self w) = default default_path path.
Proof.
  unfold new, __init__, __post_init__, load_structure, open_json_load, print,
    super, DiGraph.__init__.
  unfold_monad. cbn. unfold default_path.
  destruct (fs !! _) as [[doc|e]|]; cbn.
  - by intros [= <-].
  - destruct (decide (e = FileNotFoundError)); cbn; [|done]. by intros [= <-].
  - by intros [= <-].
Qed.

(** X7. In every state a program reaches from a constructed graph through
    calls of [add_technology] and [add_fuel], returning or raising, the
    three dictionaries of the graph are consistent, both endpoints of
    every edge are nodes, and the loaded structure, the skeleton path, the
    files and the output are still those of the construction: the methods
    never alter the schema, reread the file or print. *)
Theorem reachable_invariant (fs : gmap string (result value))
    (path : option string) (w : world) :
  reachable fs path w →
  DiGraph.consistent (graph w) ∧
  (∀ u v, DiGraph.has_edge (graph w) u v = true →
     DiGraph.has_node (graph w) u = true ∧ DiGraph.has_node (graph w) v = true) ∧
  structure (self w) = structure (self (new fs path).2) ∧
  skeleton_path (self w) = default default_path path ∧
  files w = fs ∧
  stdout w = stdout (new fs path).2.
Proof.
  intros Hr.
  assert (Hinv : DiGraph.consistent (graph w) ∧
            structure (self w) = structure (self (new fs path).2) ∧
            skeleton_path (self w) = default default_path path ∧
            files w = fs ∧
            stdout w = stdout (new fs path).2).
  { induction Hr as [w Hnew|w c Hr (Hc & Hst & Hpath & Hfs & Hout)].
    - destruct (new_inv _ _ _ Hnew) as (Hg & Hfs & Hpath).
      rewrite Hnew. split_and!; try done. rewrite Hg. apply consistent_empty.
    - split; [by apply perform_consistent|].
      rewrite perform_structure. unfold exec.
      rewrite perform_consistent_eq by done.
      by destruct (plan _ c). }
  destruct Hinv as (Hc & Hrest). split; [done|]. split; [|done].
  intros u v He. destruct (consistent_edge_nodes _ u v Hc He) as [Hu Hv].
  destruct Hc as (Hs & _). unfold DiGraph.has_node.
  by rewrite <- !(has_key_dom _ _ _ Hs).
Qed.

Lemma reachable_invariant_witness :
  DiGraph.consistent (graph after_fuel) ∧
  (∀ u v, DiGraph.has_edge (graph after_fuel) u v = true →
     DiGraph.has_node (graph after_fuel) u = true ∧
     DiGraph.has_node (graph after_fuel) v = true) ∧
  structure (self after_fuel)
    = structure (self (new {[default_path := Ok capacity_skeleton]} None).2) ∧
  skeleton_path (self after_fuel) = default default_path None ∧
  files after_fuel = {[default_path := Ok capacity_skeleton]} ∧
  stdout after_fuel = stdout (new {[default_path := Ok capacity_skeleton]} None).2.
Proof.
  apply (reachable_invariant {[default_path := Ok capacity_skeleton]} None after_fuel).
  apply (reachable_call _ _ (world_of capacity_skeleton)
           (Fuel "PWRGEO" "PWRTRN" "ELC001" "Electricity before Transmission" None)).
  apply reachable_new. vm_compute. reflexivity.
Defined.

(** ** The order of calls *)

(** X8. Two calls that are not two [add_technology] of the same label nor
    two [add_fuel] of the same ordered pair can be made in either order:
    on a consistent graph both orders leave every label with the same
    node attributes, every ordered pair with the same edge data, the same
    node and edge counts and the same structure, path, files and output,
    and each call returns or raises the same whether or not the other was
    made before it.  In particular a technology may be added after a fuel
    that names it.  The order in which the container lists its nodes and
    edges follows the order of the calls; the statement is about what is
    read by label and by pair, not about that order. *)
Theorem independent_calls_commute (w : world) (c1 c2 : call) :
  DiGraph.consistent (graph w) →
  independent c1 c2 →
  ∃ w12 w21,
    w12 = exec (perform c2) (exec (perform c1) w) ∧
    w21 = exec (perform c1) (exec (perform c2) w) ∧
    (∀ n, DiGraph.node_attrs (graph w12) n = DiGraph.node_attrs (graph w21) n) ∧
    (∀ x y, DiGraph.get_edge_data (graph w12) x y
            = DiGraph.get_edge_data (graph w21) x y) ∧
    (∀ x y, DiGraph.has_edge (graph w12) x y = DiGraph.has_edge (graph w21) x y) ∧
    DiGraph.number_of_nodes (graph w12) = DiGraph.number_of_nodes (graph w21) ∧
    DiGraph.number_of_edges (graph w12) = DiGraph.number_of_edges (graph w21) ∧
    structure (self w12) = structure (self w21) ∧
    skeleton_path (self w12) = skeleton_path (self w21) ∧
    files w12 = files w21 ∧
    stdout w12 = stdout w21 ∧
    run (perform c2) (exec (perform c1) w) = run (perform c2) w ∧
    run (perform c1) (exec (perform c2) w) = run (perform c1) w.
Proof.
  intros Hc Hind.
  pose proof (perform_consistent c1 w Hc) as Hc1.
  pose proof (perform_consistent c2 w Hc) as Hc2.
  assert (Heq : exec (perform c2) (exec (perform c1) w)
                = exec (perform c1) (exec (perform c2) w)).
  { destruct (plan (structure (self w)) c1) as [o1|e1] eqn:Hp1,
             (plan (structure (self w)) c2) as [o2|e2] eqn:Hp2.
    + rewrite (exec_perform_graph c2 (exec (perform c1) w) o2)
        by (by rewrite ?perform_structure).
      rewrite (exec_perform_graph c1 (exec (perform c2) w) o1)
        by (by rewrite ?perform_structure).
      rewrite (exec_perform_graph c1 w o1), (exec_perform_graph c2 w o2) by done.
      rewrite !graph_set_base.
      rewrite (ops_commute o1 o2) by eauto using plan_independent.
      by destruct w as [[? ? ?] ? ?].
    + rewrite (exec_perform_raise c2 w e2) by done.
      by rewrite (exec_perform_raise c2 _ e2) by (by rewrite ?perform_structure).
    + rewrite (exec_perform_raise c1 w e1) by done.
      by rewrite (exec_perform_raise c1 _ e1) by (by rewrite ?perform_structure).
    + rewrite (exec_perform_raise c1 w e1) by done.
      rewrite (exec_perform_raise c2 w e2) by done.
      by rewrite (exec_perform_raise c1 w e1) by done. }
  exists (exec (perform c2) (exec (perform c1) w)),
         (exec (perform c1) (exec (perform c2) w)).
  split; [done|]. split; [done|].
  rewrite <- Heq.
  split_and!; try done.
  - by rewrite !run_perform, perform_structure.
  - by rewrite !run_perform, perform_structure.
Qed.

Lemma independent_calls_commute_witness :
  ∃ w12 w21,
    w12 = exec (perform (Technology "PWRTRN" "Transmission of Electricity" 1 None))
            (exec (perform (Fuel "PWRGEO" "PWRTRN" "ELC001" "Electricity" None))
                  (world_of capacity_skeleton)) ∧
    w21 = exec (perform (Fuel "PWRGEO" "PWRTRN" "ELC001" "Electricity" None))
            (exec (perform (Technology "PWRTRN" "Transmission of Electricity" 1 None))
                  (world_of capacity_skeleton)) ∧
    (∀ n, DiGraph.node_attrs (graph w12) n = DiGraph.node_attrs (graph w21) n) ∧
    (∀ x y, DiGraph.get_edge_data (graph w12) x y
            = DiGraph.get_edge_data (graph w21) x y) ∧
    (∀ x y, DiGraph.has_edge (graph w12) x y = DiGraph.has_edge (graph w21) x y) ∧
    DiGraph.number_of_nodes (graph w12) = DiGraph.number_of_nodes (graph w21) ∧
    DiGraph.number_of_edges (graph w12) = DiGraph.number_of_edges (graph w21) ∧
    structure (self w12) = structure (self w21) ∧
    skeleton_path (self w12) = skeleton_path (self w21) ∧
    files w12 = files w21 ∧
    stdout w12 = stdout w21 ∧
    run (perform (Technology "PWRTRN" "Transmission of Electricity" 1 None))
      (exec (perform (Fuel "PWRGEO" "PWRTRN" "ELC001" "Electricity" None))
            (world_of capacity_skeleton))
    = run (perform (Technology "PWRTRN" "Transmission of Electricity" 1 None))
        (world_of capacity_skeleton) ∧
    run (perform (Fuel "PWRGEO" "PWRTRN" "ELC001" "Electricity" None))
      (exec (perform (Technology "PWRTRN" "Transmission of Electricity" 1 None))
            (world_of capacity_skeleton))
    = run (perform (Fuel "PWRGEO" "PWRTRN" "ELC001" "Electricity" None))
        (world_of capacity_skeleton).
Proof.
  apply (independent_calls_commute (world_of capacity_skeleton)
           (Fuel "PWRGEO" "PWRTRN" "ELC001" "Electricity" None)
           (Technology "PWRTRN" "Transmission of Electricity" 1 None)).
  - repeat split.
  - exact I.
Defined.

(** ** Scripts *)

Lemma run_bind {S A B} (m : M S A) (k : A → M S B) s :
  run (m ≫= k) s
  = match run m s with
    | Ok a => run (k a) (exec m s)
    | Raise e => Raise e
    end.
Proof. unfold_monad. by destruct (m s) as [[a|e] s']. Qed.

Lemma script_cons_run c cs w :
  run (script (c :: cs)) w
  = match run (perform c) w with
    | Ok _ => run (script cs) (exec (perform c) w)
    | Raise e => Raise e
    end.
Proof. cbn [script]. by rewrite run_bind. Qed.

Lemma script_cons_exec c cs w :
  exec (script (c :: cs)) w
  = match run (perform c) w with
    | Ok _ => exec (script cs) (exec (perform c) w)
    | Raise _ => exec (perform c) w
    end.
Proof. cbn [script]. by rewrite exec_bind_ok. Qed.

Lemma plan_shape st c o :
  plan st c = Ok o →
  match c with
  | Technology l ty lay idx =>
      ∃ ps vs, o = AddNode l (technology_attrs ty lay (default "t" idx) ps vs)
  | Fuel a b fl ft idx =>
      ∃ ps vs, o = AddEdge a b (fuel_attrs fl ft (default "f" idx) ps vs)
  end.
Proof.
  destruct c as [l ty lay idx|a b fl ft idx]; intros Hp.
  - destruct (plan_technology st l ty lay idx)
      as [(ps & vs & _ & _ & _ & Heq)|(e & Heq & _)]; [|congruence].
    rewrite Hp in Heq. simplify_eq. eauto.
  - destruct (plan_fuel st a b fl ft idx)
      as [(ps & vs & _ & _ & _ & Heq)|(e & Heq & _)]; [|congruence].
    rewrite Hp in Heq. simplify_eq. eauto.
Qed.

Lemma apply_op_node_set o g :
  DiGraph.consistent g →
  node_set (exec (apply_op o) g)
  = match o with
    | AddNode n _ => {[n]} ∪ node_set g
    | AddEdge u v _ => {[u]} ∪ ({[v]} ∪ node_set g)
    end.
Proof.
  intros Hc. apply set_eq. intros m. unfold node_set. rewrite elem_of_dom.
  change (DiGraph._node (exec (apply_op o) g) !! m)
    with (DiGraph.node_attrs (exec (apply_op o) g) m).
  rewrite apply_op_node_attrs by done.
  destruct o as [n a|u v a]; rewrite !elem_of_union, !elem_of_singleton,
    elem_of_dom; unfold DiGraph.node_attrs; case_decide.
  - split; [auto|eauto].
  - tauto.
  - split; [tauto|eauto].
  - tauto.
Qed.

Lemma apply_op_edge_set o g E :
  DiGraph.consistent g →
  is_edge_set g E →
  is_edge_set (exec (apply_op o) g)
    match o with
    | AddNode _ _ => E
    | AddEdge u v _ => {[(u, v)]} ∪ E
    end.
Proof.
  intros Hc HE x y. rewrite has_edge_data, apply_op_edge_data by done.
  destruct o as [n a|u v a].
  - by rewrite <- has_edge_data.
  - rewrite elem_of_union, elem_of_singleton, <- (HE x y), has_edge_data.
    case_decide; [split; eauto|tauto].
Qed.

Lemma apply_op_number_of_edges o g E :
  DiGraph.consistent g →
  is_edge_set g E →
  DiGraph.number_of_edges (exec (apply_op o) g)
  = match o with
    | AddNode _ _ => DiGraph.number_of_edges g
    | AddEdge u v _ =>
        if bool_decide ((u, v) ∈ E) then DiGraph.number_of_edges g
        else Datatypes.S (DiGraph.number_of_edges g)
    end.
Proof.
  intros Hc HE. destruct o as [n a|u v a]; cbn [apply_op].
  - apply add_node_number_of_edges.
  - rewrite add_edge_number_of_edges by done.
    destruct (DiGraph.has_edge g u v) eqn:He.
    + apply HE in He. by rewrite bool_decide_eq_true_2.
    + rewrite bool_decide_eq_false_2; [done|]. intros Hin%HE. congruence.
Qed.

Lemma technology_attrs_typed ty lay idx ps vs old :
  is_Some ((technology_attrs ty lay idx ps vs ∪ old) !! "tech_type") ∧
  is_Some ((technology_attrs ty lay idx ps vs ∪ old) !! "layer").
Proof.
  unfold technology_attrs. rewrite !lookup_union.
  rewrite lookup_insert_eq, lookup_insert_ne, lookup_insert_eq by done.
  split; [destruct (old !! "tech_type")|destruct (old !! "layer")]; cbn; eauto.
Qed.

(** One induction for everything a finished script is known to have done. *)
Lemma script_spec (cs : list call) (w : world) (E : gset (string * string)) :
  DiGraph.consistent (graph w) →
  is_edge_set (graph w) E →
  run (script cs) w = Ok tt →
  node_set (graph (exec (script cs) w)) = script_nodes (node_set (graph w)) cs ∧
  is_edge_set (graph (exec (script cs) w)) (script_edges E cs) ∧
  DiGraph.number_of_edges (graph (exec (script cs) w))
    = DiGraph.number_of_edges (graph w) + new_edges E cs ∧
  DiGraph.consistent (graph (exec (script cs) w)) ∧
  structure (self (exec (script cs) w)) = structure (self w) ∧
  stdout (exec (script cs) w) = stdout w ∧
  (technologies_first (node_set (graph w)) cs = true →
   all_technologies (graph w) →
   all_technologies (graph (exec (script cs) w))).
Proof.
  revert w E. induction cs as [|c cs IH]; intros w E Hc HE Hrun.
  { cbn. split_and!; done || lia. }
  rewrite script_cons_run in Hrun. rewrite script_cons_exec.
  rewrite run_perform in Hrun |- * by done.
  destruct (plan (structure (self w)) c) as [o|e] eqn:Hp; [|done].
  pose proof (plan_shape _ _ _ Hp) as Hshape.
  pose proof (perform_consistent c w Hc) as Hc1.
  rewrite (exec_perform_graph c w o) in Hc1, Hrun |- * by done.
  pose proof (apply_op_node_set o (graph w) Hc) as Hnodes.
  pose proof (apply_op_edge_set o (graph w) E Hc HE) as Hedges.
  pose proof (apply_op_number_of_edges o (graph w) E Hc HE) as Hcount.
  destruct c as [l ty lay idx|a b fl ft idx];
    destruct Hshape as (ps & vs & ->);
    destruct (IH _ _ Hc1 Hedges Hrun) as (Hn & He & Hk & Hcons & Hst & Hout & Hty);
    rewrite graph_set_base in Hn, Hk, Hty;
    cbn [script_nodes script_edges new_edges technologies_first];
    rewrite Hn, Hnodes, Hk, Hcount; split_and!; try done.
  - intros Hfirst Hall. apply Hty; [by rewrite Hnodes|].
    intros n a Hn'. rewrite apply_op_node_attrs in Hn' by done.
    case_decide; [|by eapply Hall]. simplify_eq.
    apply technology_attrs_typed.
  - case_bool_decide as Hin; [|lia].
    rewrite (subseteq_union_1_L {[(a, b)]} E) by (by apply singleton_subseteq_l).
    lia.
  - intros [[Ha Hb]%andb_true_iff Hfirst]%andb_true_iff Hall.
    apply bool_decide_eq_true in Ha, Hb.
    assert (Hsame : {[a]} ∪ ({[b]} ∪ node_set (graph w)) = node_set (graph w)).
    { rewrite (subseteq_union_1_L {[b]}) by (by apply singleton_subseteq_l).
      by rewrite (subseteq_union_1_L {[a]}) by (by apply singleton_subseteq_l). }
    apply Hty; [by rewrite Hnodes, Hsame|].
    intros n attr Hn'. rewrite apply_op_node_attrs in Hn' by done.
    case_decide as Hab; [|by eapply Hall].
    assert (is_Some (DiGraph.node_attrs (graph w) n)) as [x Hx].
    { apply elem_of_dom. by destruct Hab as [->| ->]. }
    rewrite Hx in Hn'. cbn in Hn'. simplify_eq. by eapply Hall.
Qed.

(** X9. The graph a script builds: when a sequence of [add_technology]
    and [add_fuel] calls runs to its end on a consistent graph, the nodes
    are exactly the former nodes, the labels added as technologies and the
    endpoints of the fuels; the edges are exactly the former edges and the
    ordered pairs of the fuels; and the edge count has grown by the number
    of distinct new pairs, a repeated pair counting once. *)
Theorem script_builds (cs : list call) (w : world) (E : gset (string * string)) :
  DiGraph.consistent (graph w) →
  is_edge_set (graph w) E →
  run (script cs) w = Ok tt →
  node_set (graph (exec (script cs) w)) = script_nodes (node_set (graph w)) cs ∧
  is_edge_set (graph (exec (script cs) w)) (script_edges E cs) ∧
  DiGraph.number_of_edges (graph (exec (script cs) w))
    = DiGraph.number_of_edges (graph w) + new_edges E cs ∧
  DiGraph.number_of_nodes (graph (exec (script cs) w))
    = size (script_nodes (node_set (graph w)) cs).
Proof.
  intros Hc HE Hrun.
  destruct (script_spec cs w E Hc HE Hrun) as (Hn & He & Hk & _).
  split_and!; try done.
  unfold DiGraph.number_of_nodes. rewrite <- Hn. unfold node_set.
  symmetry. apply size_dom.
Qed.

Lemma script_builds_witness :
  node_set (graph (exec (script main_calls) (world_of capacity_skeleton)))
    = script_nodes (node_set (graph (world_of capacity_skeleton))) main_calls ∧
  is_edge_set (graph (exec (script main_calls) (world_of capacity_skeleton)))
    (script_edges ∅ main_calls) ∧
  DiGraph.number_of_edges (graph (exec (script main_calls) (world_of capacity_skeleton)))
    = DiGraph.number_of_edges (graph (world_of capacity_skeleton))
      + new_edges ∅ main_calls ∧
  DiGraph.number_of_nodes (graph (exec (script main_calls) (world_of capacity_skeleton)))
    = size (script_nodes (node_set (graph (world_of capacity_skeleton))) main_calls).
Proof.
  apply (script_builds main_calls (world_of capacity_skeleton) ∅).
  - repeat split.
  - intros x y. split; [intros H; vm_compute in H; discriminate|].
    intros H. by apply elem_of_empty in H.
  - vm_compute. reflexivity.
Defined.

Lemma is_edge_set_empty g :
  DiGraph._succ g = ∅ → is_edge_set g ∅.
Proof.
  intros Hs x y. unfold DiGraph.has_edge. rewrite Hs, lookup_empty.
  split; [done|]. intros H. by apply elem_of_empty in H.
Qed.

(** Every graph has its set of edges. *)
Lemma edge_set_exists g : ∃ E, is_edge_set g E.
Proof.
  exists (list_to_set
    (flat_map (λ '(x, nbrs), (λ y, (x, y)) <$> (map_to_list nbrs).*1)
              (map_to_list (DiGraph._succ g)))).
  intros x y. rewrite elem_of_list_to_set, list_elem_of_In, in_flat_map.
  unfold DiGraph.has_edge. split.
  - destruct (DiGraph._succ g !! x) as [nbrs|] eqn:Hx; [|done].
    intros [d Hd]%has_key_true. exists (x, nbrs). split.
    + by apply list_elem_of_In, elem_of_map_to_list.
    + apply list_elem_of_In, list_elem_of_fmap. exists y. split; [done|].
      apply list_elem_of_fmap. exists (y, d). split; [done|].
      by apply elem_of_map_to_list.
  - intros ([x' nbrs] & Hin%list_elem_of_In%elem_of_map_to_list & Hy).
    apply list_elem_of_In, list_elem_of_fmap in Hy as (y' & [= <- <-] & Hy).
    apply list_elem_of_fmap in Hy as ([y'' d] & -> & Hd%elem_of_map_to_list).
    rewrite Hin. apply has_key_true. cbn. eauto.
Qed.

(** X10. Technologies first: when a script runs to its end on a
    consistent graph all of whose nodes are technologies, and every fuel
    of the script joins labels that are nodes already or were added as
    technologies earlier in the script, then every node of the resulting
    graph carries [tech_type] and [layer]: no fuel has made a bare node. *)
Theorem technologies_first_no_bare_node (cs : list call) (w : world) :
  DiGraph.consistent (graph w) →
  all_technologies (graph w) →
  technologies_first (node_set (graph w)) cs = true →
  run (script cs) w = Ok tt →
  all_technologies (graph (exec (script cs) w)) ∧
  ∀ u v, DiGraph.has_edge (graph (exec (script cs) w)) u v = true →
    ∃ au av,
      DiGraph.node_attrs (graph (exec (script cs) w)) u = Some au ∧
      DiGraph.node_attrs (graph (exec (script cs) w)) v = Some av ∧
      is_Some (au !! "tech_type") ∧ is_Some (av !! "tech_type").
Proof.
  intros Hc Hall Hfirst Hrun.
  destruct (edge_set_exists (graph w)) as [E HE].
  destruct (script_spec cs w E Hc HE Hrun) as (_ & _ & _ & Hcons & _ & _ & Hty).
  specialize (Hty Hfirst Hall). split; [done|].
  intros u v He.
  destruct (consistent_edge_nodes _ u v Hcons He) as [Hu Hv].
  destruct Hcons as (Hs & _).
  rewrite (has_key_dom _ _ u Hs) in Hu. rewrite (has_key_dom _ _ v Hs) in Hv.
  apply has_key_true in Hu as [au Hu]. apply has_key_true in Hv as [av Hv].
  exists au, av. split_and!; try done.
  - by eapply Hty.
  - by eapply Hty.
Qed.

Lemma technologies_first_no_bare_node_witness :
  all_technologies (graph (exec (script main_calls) (world_of capacity_skeleton))) ∧
  ∀ u v,
    DiGraph.has_edge (graph (exec (script main_calls) (world_of capacity_skeleton)))
      u v = true →
    ∃ au av,
      DiGraph.node_attrs (graph (exec (script main_calls) (world_of capacity_skeleton)))
        u = Some au ∧
      DiGraph.node_attrs (graph (exec (script main_calls) (world_of capacity_skeleton)))
        v = Some av ∧
      is_Some (au !! "tech_type") ∧ is_Some (av !! "tech_type").
Proof.
  apply (technologies_first_no_bare_node main_calls (world_of capacity_skeleton)).
  - repeat split.
  - intros n a H. vm_compute in H. discriminate.
  - vm_compute. reflexivity.
  - vm_compute. reflexivity.
Defined.

(** ** Construction *)

Lemma new_present fs path doc :
  fs !! default default_path path = Some (Ok doc) →
  new fs path
  = (Ok tt, World (mk (default default_path path) doc (DiGraph.mk ∅ ∅ ∅)) fs []).
Proof.
  intros Hf. unfold new, __init__, __post_init__, load_structure, open_json_load,
    print, super, DiGraph.__init__.
  unfold_monad. cbn. unfold default_path in Hf. by rewrite Hf.
Qed.

Lemma new_missing fs path :
  fs !! default default_path path = None →
  new fs path
  = (Ok tt,
     World (mk (default default_path path) (VDict []) (DiGraph.mk ∅ ∅ ∅)) fs
       ["Warning: " +:+ default default_path path +:+ " not found."]).
Proof.
  intros Hf. unfold new, __init__, __post_init__, load_structure, open_json_load,
    print, super, DiGraph.__init__.
  unfold_monad. cbn. unfold default_path in Hf. by rewrite Hf.
Qed.

Lemma new_raise fs path e :
  fs !! default default_path path = Some (Raise e) →
  e ≠ FileNotFoundError →
  new fs path
  = (Raise e,
     World (mk (default default_path path) (VDict []) (DiGraph.mk ∅ ∅ ∅)) fs []).
Proof.
  intros Hf He. unfold new, __init__, __post_init__, load_structure,
    open_json_load, print, super, DiGraph.__init__.
  unfold_monad. cbn. unfold default_path in Hf. rewrite Hf. cbn.
  by rewrite decide_False.
Qed.

(** X11. Construction when the skeleton path can be opened or fails
    otherwise than by a missing file: if the document is read, the object
    is built with exactly that document as its structure, an empty graph
    and the given path; if opening or parsing raises anything but
    [FileNotFoundError], the constructor raises that same exception.  In
    both cases nothing is printed. *)
Theorem construction_with_file (fs : gmap string (result value))
    (path : option string) (r : result value) :
  fs !! default default_path path = Some r →
  r ≠ Raise FileNotFoundError →
  match r with
  | Ok doc =>
      ∃ w, new fs path = (Ok tt, w) ∧
        structure (self w) = doc ∧
        skeleton_path (self w) = default default_path path ∧
        graph w = DiGraph.mk ∅ ∅ ∅
  | Raise e => (new fs path).1 = Raise e
  end ∧
  stdout (new fs path).2 = [].
Proof.
  intros Hf Hr. destruct r as [doc|e].
  - rewrite (new_present fs path doc Hf). split; [|done]. eauto.
  - rewrite (new_raise fs path e Hf); [done|]. congruence.
Qed.

Lemma construction_with_file_witness :
  (new {[default_path := Raise JSONDecodeError]} None).1 = Raise JSONDecodeError ∧
  stdout (new {[default_path := Raise JSONDecodeError]} None).2 = [].
Proof.
  apply (construction_with_file {[default_path := Raise JSONDecodeError]} None
           (Raise JSONDecodeError)).
  - vm_compute. reflexivity.
  - discriminate.
Defined.

(** ** The script of the module *)

Lemma script_returns cs w :
  DiGraph.consistent (graph w) →
  Forall (λ c, ∃ o, plan (structure (self w)) c = Ok o) cs →
  run (script cs) w = Ok tt.
Proof.
  revert w. induction cs as [|c cs IH]; intros w Hc Hall; [done|].
  apply Forall_cons in Hall as [[o Hp] Hall].
  rewrite script_cons_run, run_perform, Hp by done.
  apply IH; [by apply perform_consistent|]. by rewrite perform_structure.
Qed.

Lemma plan_technology_ok st l ty lay ps vs :
  query "params" "t" st = Ok ps →
  query "variables" "t" st = Ok vs →
  distinct_keywords add_node_names ps vs →
  ∃ o, plan st (Technology l ty lay None) = Ok o.
Proof.
  intros Hps Hvs Hd. cbn [plan default]. rewrite Hps, Hvs, technology_kwargs by done.
  eauto.
Qed.

Lemma plan_fuel_ok st a b fl ft ps vs :
  query "params" "f" st = Ok ps →
  query "variables" "f" st = Ok vs →
  distinct_keywords add_edge_names ps vs →
  ∃ o, plan st (Fuel a b fl ft None) = Ok o.
Proof.
  intros Hps Hvs Hd. cbn [plan default]. rewrite Hps, Hvs, fuel_kwargs by done.
  eauto.
Qed.

(** X12. [main()] with a usable skeleton: when the file at the default
    path is read and the schema queries for ["t"] and for ["f"] succeed
    with names distinct from each other and from the keywords of the
    calls, [main()] returns the graph it built: twelve nodes and eleven
    edges, every node a technology carrying [tech_type] and [layer] (no
    fuel names a label that was not added first), the structure being the
    document of the file, and nothing printed. *)
Theorem main_builds_the_system (fs : gmap string (result value)) (doc : value)
    (ps vs fps fvs : attrs) :
  fs !! default_path = Some (Ok doc) →
  run (get_params "t") (new fs None).2 = Ok ps →
  run (get_variables "t") (new fs None).2 = Ok vs →
  distinct_keywords add_node_names ps vs →
  run (get_params "f") (new fs None).2 = Ok fps →
  run (get_variables "f") (new fs None).2 = Ok fvs →
  distinct_keywords add_edge_names fps fvs →
  ∃ w, main fs = (Ok (self w), w) ∧
    structure (self w) = doc ∧
    DiGraph.number_of_nodes (graph w) = 12 ∧
    DiGraph.number_of_edges (graph w) = 11 ∧
    all_technologies (graph w) ∧
    DiGraph.consistent (graph w) ∧
    stdout w = [].
Proof.
  intros Hf. unfold main, run. rewrite (new_present fs None doc Hf). cbn [snd].
  rewrite !get_params_eq, !get_variables_eq. cbn [fst self structure].
  intros Hps Hvs Hd Hfps Hfvs Hfd.
  set (w0 := World _ _ _).
  assert (Hc : DiGraph.consistent (graph w0)) by apply consistent_empty.
  assert (Hrun : run (script main_calls) w0 = Ok tt).
  { apply script_returns; [done|]. unfold main_calls.
    repeat (apply Forall_cons; split;
      [first [by apply (plan_technology_ok _ _ _ _ ps vs)
             | by apply (plan_fuel_ok _ _ _ _ _ fps fvs)]|]).
    constructor. }
  assert (HE : is_edge_set (graph w0) ∅) by (by apply is_edge_set_empty).
  destruct (script_spec main_calls w0 ∅ Hc HE Hrun)
    as (Hn & _ & Hk & Hcons & Hst & Hout & Hty).
  exists (exec (script main_calls) w0).
  split_and!; [|done| |by rewrite Hk| |done|done].
  - rewrite (bind_ok _ _ w0 tt (exec (script main_calls) w0)); [done|].
    unfold run, exec in *. destruct (script main_calls w0) as [r w']. cbn in *.
    by subst.
  - unfold DiGraph.number_of_nodes. rewrite <- size_dom.
    change (dom (DiGraph._node (graph (exec (script main_calls) w0))))
      with (node_set (graph (exec (script main_calls) w0))).
    rewrite Hn. vm_compute. reflexivity.
  - apply Hty; [vm_compute; reflexivity|].
    intros n a H. vm_compute in H. discriminate.
Qed.

Lemma main_builds_the_system_witness :
  ∃ w, main {[default_path := Ok capacity_skeleton]} = (Ok (self w), w) ∧
    structure (self w) = capacity_skeleton ∧
    DiGraph.number_of_nodes (graph w) = 12 ∧
    DiGraph.number_of_edges (graph w) = 11 ∧
    all_technologies (graph w) ∧
    DiGraph.consistent (graph w) ∧
    stdout w = [].
Proof.
  apply (main_builds_the_system {[default_path := Ok capacity_skeleton]}
           capacity_skeleton
           {["Capacity" := VInt 0]} {["NewCapacity" := VNone]}
           {["Capacity" := VInt 0]} ∅).
  - vm_compute. reflexivity.
  - vm_compute. reflexivity.
  - vm_compute. reflexivity.
  - split; [decide_by_computation|]. repeat constructor.
  - vm_compute. reflexivity.
  - vm_compute. reflexivity.
  - split; [decide_by_computation|]. repeat constructor.
Defined.

(** X13. [main()] without a skeleton file: when no file exists at the
    default path, [main()] prints the warning and then raises
    [KeyError] for [params] at its first [add_technology]; no node and no
    edge is ever added. *)
Theorem main_without_skeleton_raises (fs : gmap string (result value)) :
  fs !! default_path = None →
  ∃ w, main fs = (Raise (KeyError "params"), w) ∧
    graph w = DiGraph.mk ∅ ∅ ∅ ∧
    stdout w = ["Warning: ./Structure/skeleton.json not found."].
Proof.
  intros Hf. unfold main. rewrite (new_missing fs None Hf).
  eexists. split.
  - erewrite bind_raise; [reflexivity|].
    unfold main_calls. cbn [script].
    erewrite bind_raise; [reflexivity|].
    cbn [perform]. by rewrite add_technology_eq.
  - done.
Qed.

Lemma main_without_skeleton_raises_witness :
  ∃ w, main ∅ = (Raise (KeyError "params"), w) ∧
    graph w = DiGraph.mk ∅ ∅ ∅ ∧
    stdout w = ["Warning: ./Structure/skeleton.json not found."].
Proof. apply (main_without_skeleton_raises ∅). reflexivity. Defined.

(** ** The queries on any structure *)

Lemma dict_comprehension_unusable index items name e :
  (name, e) ∈ items →
  indices_usable e = false →
  ∀ acc, ∃ exn, dict_comprehension index items acc = Raise exn.
Proof.
  induction items as [|[k e0] items IH]; intros Hin Hbad acc.
  { by apply elem_of_nil in Hin. }
  cbn [dict_comprehension].
  destruct (getitem e0 "indices") as [c|err] eqn:Hi; [|eauto].
  destruct (contains c index) as [b|err] eqn:Hc; [|eauto].
  assert (Hrest : (name, e) ∈ items).
  { apply elem_of_cons in Hin as [[= -> ->]|?]; [|done]. exfalso.
    destruct e0 as [| | | | | |fields]; try discriminate.
    cbn in Hi, Hbad. destruct (assoc "indices" fields) as [c'|]; [|done].
    simplify_eq. by destruct c. }
  destruct b.
  - destruct (getitem e0 "default"); [|eauto]. by apply IH.
  - by apply IH.
Qed.

(** X14. An entry of a collection that is not a dict, has no [indices],
    or has under [indices] something other than a list, a dict or a
    string, makes the query of that collection raise for every index
    code, also for the codes no entry is declared for. *)
Theorem unusable_entry_breaks_every_query (w : world)
    (items : list (string * value)) (name : string) (e : value) :
  (name, e) ∈ items →
  indices_usable e = false →
  (getitem (structure (self w)) "params" = Ok (VDict items) →
     ∀ index, ∃ exn, run (get_params index) w = Raise exn) ∧
  (getitem (structure (self w)) "variables" = Ok (VDict items) →
     ∀ index, ∃ exn, run (get_variables index) w = Raise exn).
Proof.
  intros Hin Hbad. unfold run.
  split; intros Hget index; rewrite ?get_params_eq, ?get_variables_eq;
    unfold query; rewrite Hget; cbn [fst items_of];
    by apply (dict_comprehension_unusable index items name e).
Qed.

Lemma unusable_entry_breaks_every_query_witness :
  (getitem (structure (self (world_of no_indices_skeleton))) "params"
     = Ok (VDict [("Capacity",
                   VDict [("indices", VList [VStr "t"]); ("default", VInt 0)]);
                  ("Demand", VDict [("default", VInt 0)])]) →
     ∀ index, ∃ exn, run (get_params index) (world_of no_indices_skeleton) = Raise exn) ∧
  (getitem (structure (self (world_of no_indices_skeleton))) "variables"
     = Ok (VDict [("Capacity",
                   VDict [("indices", VList [VStr "t"]); ("default", VInt 0)]);
                  ("Demand", VDict [("default", VInt 0)])]) →
     ∀ index, ∃ exn, run (get_variables index) (world_of no_indices_skeleton) = Raise exn).
Proof.
  apply (unusable_entry_breaks_every_query (world_of no_indices_skeleton)
           [("Capacity", VDict [("indices", VList [VStr "t"]); ("default", VInt 0)]);
            ("Demand", VDict [("default", VInt 0)])]
           "Demand" (VDict [("default", VInt 0)])).
  - apply list_elem_of_In. simpl. auto.
  - reflexivity.
Defined.

Lemma dict_comprehension_listed index items :
  forallb (λ it, indices_listed it.2) items = true →
  ∀ acc,
    ((∃ m, dict_comprehension index items acc = Ok m) ∨
     dict_comprehension index items acc = Raise (KeyError "default")) ∧
    ((∃ m, dict_comprehension index items acc = Ok m) ↔
     ∀ name fields indices,
       (name, VDict fields) ∈ items →
       assoc "indices" fields = Some (VList indices) →
       VStr index ∈ indices →
       is_Some (assoc "default" fields)).
Proof.
  induction items as [|[k e] items IH]; intros Hok acc.
  { cbn. split; [eauto|]. split; [|eauto].
    intros _ name fields indices Hin. by apply elem_of_nil in Hin. }
  cbn [forallb] in Hok. apply andb_true_iff in Hok as [He Hok].
  destruct e as [| | | | | |fields]; try discriminate. cbn in He.
  destruct (assoc "indices" fields) as [[| | | | |indices|?]|] eqn:Hi;
    try discriminate.
  cbn [dict_comprehension getitem]. rewrite Hi. cbn [contains].
  destruct (existsb (str_eq index) indices) eqn:Htag.
  - apply existsb_str_eq in Htag.
    destruct (assoc "default" fields) as [d|] eqn:Hd.
    + destruct (IH Hok (<[k := d]> acc)) as [Hcase Hiff]. split; [done|].
      rewrite Hiff. split.
      * intros Hall name f ix [[= -> <-]|Hin]%elem_of_cons; [eauto|].
        by apply (Hall name f ix).
      * intros Hall name f ix Hin. apply (Hall name f ix).
        by apply elem_of_cons; right.
    + split; [by right|]. split; [by intros [m Hm]|].
      intros Hall. destruct (Hall k fields indices) as [d Hd']; try done.
      * by apply elem_of_cons; left.
      * congruence.
  - apply not_true_iff_false in Htag. rewrite existsb_str_eq in Htag.
    destruct (IH Hok acc) as [Hcase Hiff]. split; [done|].
    rewrite Hiff. split.
    + intros Hall name f ix [[= -> <-]|Hin]%elem_of_cons;
        [|by apply (Hall name f ix)].
      intros Hi' Hin. rewrite Hi in Hi'. by simplify_eq.
    + intros Hall name f ix Hin. apply (Hall name f ix).
      by apply elem_of_cons; right.
Qed.

(** X15. A missing default is noticed late: when every entry of [params]
    is a dict with a list under [indices], [get_params index] returns
    exactly when every entry declared for [index] has a [default], and
    otherwise raises [KeyError] for [default]; an entry without a default
    goes unnoticed by every query for an index it is not declared for. *)
Theorem missing_default_noticed_per_index (w : world)
    (items : list (string * value)) (index : string) :
  getitem (structure (self w)) "params" = Ok (VDict items) →
  forallb (λ it, indices_listed it.2) items = true →
  ((∃ m, run (get_params index) w = Ok m) ↔
   ∀ name fields indices,
     (name, VDict fields) ∈ items →
     assoc "indices" fields = Some (VList indices) →
     VStr index ∈ indices →
     is_Some (assoc "default" fields)) ∧
  ((∃ m, run (get_params index) w = Ok m) ∨
   run (get_params index) w = Raise (KeyError "default")).
Proof.
  intros Hget Hok. unfold run. rewrite get_params_eq. unfold query.
  rewrite Hget. cbn [fst items_of].
  destruct (dict_comprehension_listed index items Hok ∅) as [Hcase Hiff].
  by split.
Qed.

Lemma missing_default_noticed_per_index_witness :
  ((∃ m, run (get_params "t") (world_of no_default_skeleton) = Ok m) ↔
   ∀ name fields indices,
     (name, VDict fields)
       ∈ [("Capacity", VDict [("indices", VList [VStr "t"]); ("default", VInt 0)]);
          ("Demand", VDict [("indices", VList [VStr "f"; VStr "y"])])] →
     assoc "indices" fields = Some (VList indices) →
     VStr "t" ∈ indices →
     is_Some (assoc "default" fields)) ∧
  ((∃ m, run (get_params "t") (world_of no_default_skeleton) = Ok m) ∨
   run (get_params "t") (world_of no_default_skeleton) = Raise (KeyError "default")).
Proof.
  apply (missing_default_noticed_per_index (world_of no_default_skeleton)
           [("Capacity", VDict [("indices", VList [VStr "t"]); ("default", VInt 0)]);
            ("Demand", VDict [("indices", VList [VStr "f"; VStr "y"])])] "t").
  - vm_compute. reflexivity.
  - reflexivity.
Defined.

(** *** Strings on the right of [in] *)

Lemma append_cons b x q : String b x +:+ q = String b (x +:+ q).
Proof. reflexivity. Qed.

Lemma append_nil q : EmptyString +:+ q = q.
Proof. reflexivity. Qed.

Lemma prefix_spec x s : String.prefix x s = true ↔ ∃ q, s = x +:+ q.
Proof.
  revert s. induction x as [|a x IH]; intros s.
  { split; [intros _; by exists s|by destruct s]. }
  destruct s as [|b s]; cbn [String.prefix].
  { split; [done|]. intros [q Hq]. by rewrite append_cons in Hq. }
  destruct (Ascii.ascii_dec a b) as [->|Hne].
  - rewrite IH. split; intros [q Hq]; exists q; rewrite append_cons in *;
      congruence.
  - split; [done|]. intros [q Hq]. rewrite append_cons in Hq. congruence.
Qed.

Lemma substring_of_spec x s :
  substring_of x s = true ↔ ∃ p q, s = p +:+ x +:+ q.
Proof.
  induction s as [|b s IH]; cbn [substring_of].
  - rewrite orb_false_r, prefix_spec. split.
    + intros [q Hq]. by exists EmptyString, q.
    + intros (p & q & Hpq). destruct p as [|c p].
      * by exists q.
      * by rewrite append_cons in Hpq.
  - rewrite orb_true_iff, prefix_spec, IH. split.
    + intros [[q Hq]|(p & q & Hpq)].
      * by exists EmptyString, q.
      * exists (String b p), q. by rewrite append_cons, Hpq.
    + intros (p & q & Hpq). destruct p as [|c p].
      * left. by exists q.
      * right. exists p, q. rewrite append_cons in Hpq. congruence.
Qed.

Lemma dict_comprehension_selects index items :
  NoDup items.*1 →
  ∀ acc m,
    dict_comprehension index items acc = Ok m →
    (∀ name, name ∉ items.*1 → m !! name = acc !! name) ∧
    (∀ name e, (name, e) ∈ items →
       ∃ c b, getitem e "indices" = Ok c ∧ contains c index = Ok b ∧
         if b then ∃ d, getitem e "default" = Ok d ∧ m !! name = Some d
         else m !! name = acc !! name).
Proof.
  induction items as [|[k e0] items IH]; intros Hnd acc m Hm.
  { cbn in Hm. simplify_eq. split; [done|].
    intros name e Hin. by apply elem_of_nil in Hin. }
  rewrite fmap_cons in Hnd. apply NoDup_cons in Hnd as [Hk Hnd]. cbn in Hk.
  cbn [dict_comprehension] in Hm.
  destruct (getitem e0 "indices") as [c|] eqn:Hi; [|done].
  destruct (contains c index) as [b|] eqn:Hc; [|done].
  assert (∃ acc', dict_comprehension index items acc' = Ok m ∧
            (∀ name, name ≠ k → acc' !! name = acc !! name) ∧
            (if b then ∃ d, getitem e0 "default" = Ok d ∧ acc' !! k = Some d
             else acc' !! k = acc !! k)) as (acc' & Hm' & Hother & Hhead).
  { destruct b.
    - destruct (getitem e0 "default") as [d|] eqn:Hd; [|done].
      exists (<[k := d]> acc). split_and!; try done.
      + intros name Hne. by rewrite lookup_insert_ne.
      + exists d. by rewrite lookup_insert_eq.
    - exists acc. by split_and!. }
  destruct (IH Hnd acc' m Hm') as [Hout Hin]. split.
  - intros name [Hne Hnot]%not_elem_of_cons. rewrite Hout by done. by apply Hother.
  - intros name e [[= -> ->]|Hrest]%elem_of_cons.
    + exists c, b. split_and!; try done. rewrite (Hout k Hk).
      destruct b; [|done]. destruct Hhead as (d & Hd & Hk'). eauto.
    + destruct (Hin name e Hrest) as (c' & b' & Hi' & Hc' & Hres).
      exists c', b'. split_and!; try done.
      destruct b'; [done|]. rewrite Hres. apply Hother. intros ->.
      apply Hk. apply list_elem_of_fmap. by exists (k, e).
Qed.

(** X16. Indices given as one string: for an entry whose [indices] is a
    string instead of a list, Python's [in] is the substring test, so
    when [get_params index] returns, the entry is in the result (at its
    default) exactly when [index] occurs inside that string, and absent
    otherwise; a parameter declared for the string [technology] is
    attached under the index [t]. *)
Theorem string_indices_select_by_substring (w : world)
    (items : list (string * value)) (name : string)
    (fields : list (string * value)) (s : string) (d : value)
    (index : string) (m : attrs) :
  getitem (structure (self w)) "params" = Ok (VDict items) →
  NoDup items.*1 →
  (name, VDict fields) ∈ items →
  assoc "indices" fields = Some (VStr s) →
  assoc "default" fields = Some d →
  run (get_params index) w = Ok m →
  ((∃ p q, s = p +:+ index +:+ q) → m !! name = Some d) ∧
  ((¬ ∃ p q, s = p +:+ index +:+ q) → m !! name = None).
Proof.
  intros Hget Hnd Hin Hi Hd. unfold run. rewrite get_params_eq. unfold query.
  rewrite Hget. cbn [fst items_of]. intros Hm.
  destruct (dict_comprehension_selects index items Hnd ∅ m Hm) as [_ Hsel].
  destruct (Hsel name (VDict fields) Hin) as (c & b & Hc & Hb & Hres).
  cbn [getitem] in Hc, Hres. rewrite Hi in Hc. rewrite Hd in Hres.
  simplify_eq. cbn [contains] in Hb. simplify_eq.
  rewrite <- substring_of_spec.
  destruct (substring_of index s).
  - destruct Hres as (d' & [= <-] & Hres). by split.
  - rewrite lookup_empty in Hres. split; [done|]. by intros _.
Qed.

Lemma string_indices_select_by_substring_witness :
  ((∃ p q, "technology" = p +:+ "t" +:+ q) →
     ({["Capacity" := VInt 0]} : attrs) !! "Capacity" = Some (VInt 0)) ∧
  ((¬ ∃ p q, "technology" = p +:+ "t" +:+ q) →
     ({["Capacity" := VInt 0]} : attrs) !! "Capacity" = None).
Proof.
  apply (string_indices_select_by_substring (world_of string_indices_skeleton)
           [("Capacity", VDict [("indices", VStr "technology"); ("default", VInt 0)])]
           "Capacity" [("indices", VStr "technology"); ("default", VInt 0)]
           "technology" (VInt 0) "t" {["Capacity" := VInt 0]}).
  - vm_compute. reflexivity.
  - repeat constructor. apply not_elem_of_nil.
  - apply list_elem_of_In. simpl. auto.
  - reflexivity.
  - reflexivity.
  - vm_compute. reflexivity.
Defined.

(** ** A later call over an earlier one *)

Lemma union_absorb (a1 a2 old : attrs) :
  dom a1 =@{gset string} dom a2 → a2 ∪ (a1 ∪ old) = a2 ∪ old.
Proof.
  intros Hdom. apply map_eq. intros k. rewrite !lookup_union.
  destruct (a2 !! k) as [x|] eqn:H2; [by destruct (a1 !! k), (old !! k)|].
  assert (a1 !! k = None) as ->; [|by destruct (old !! k)].
  apply not_elem_of_dom. rewrite Hdom. by apply not_elem_of_dom.
Qed.

Lemma op_absorbs o1 o2 g :
  DiGraph.consistent g →
  match o1, o2 with
  | AddNode n1 a1, AddNode n2 a2 => n1 = n2 ∧ dom a1 =@{gset string} dom a2
  | AddEdge u1 v1 a1, AddEdge u2 v2 a2 =>
      u1 = u2 ∧ v1 = v2 ∧ dom a1 =@{gset string} dom a2
  | _, _ => False
  end →
  exec (apply_op o2) (exec (apply_op o1) g) = exec (apply_op o2) g.
Proof.
  intros Hc Hsame.
  apply consistent_ext; try (by repeat apply apply_op_consistent).
  - intros m. rewrite !apply_op_node_attrs by (by try apply apply_op_consistent).
    destruct o1 as [n1 a1|u1 v1 a1], o2 as [n2 a2|u2 v2 a2]; try done.
    + destruct Hsame as [-> Hdom]. case_decide; [|done]. cbn.
      by rewrite union_absorb.
    + destruct Hsame as (-> & -> & Hdom). by case_decide.
  - intros x y. rewrite !apply_op_edge_data by (by try apply apply_op_consistent).
    destruct o1 as [n1 a1|u1 v1 a1], o2 as [n2 a2|u2 v2 a2]; try done.
    destruct Hsame as (-> & -> & Hdom). case_decide; [|done]. cbn.
    by rewrite union_absorb.
Qed.

Lemma dom_insert3 (a b c : string) (x y z x' y' z' : value) (m : attrs) :
  dom (<[a := x]> (<[b := y]> (<[c := z]> m)))
  =@{gset string} dom (<[a := x']> (<[b := y']> (<[c := z']> m))).
Proof. by rewrite !dom_insert_L. Qed.

(** X17. The last call wins: on a consistent graph, adding a technology
    again under the same label and the same index, with any type and
    layer, leaves the state that this second call alone would have left,
    so nothing of the first call's type and layer survives; likewise for a
    fuel added again between the same two labels under the same index. *)
Theorem later_call_absorbs_earlier (w : world) (label ty1 ty2 : string)
    (lay1 lay2 : Z) (index : option string) (a b fl1 ft1 fl2 ft2 : string)
    (findex : option string) :
  DiGraph.consistent (graph w) →
  exec (add_technology label ty2 lay2 index)
       (exec (add_technology label ty1 lay1 index) w)
  = exec (add_technology label ty2 lay2 index) w ∧
  exec (add_fuel a b fl2 ft2 findex) (exec (add_fuel a b fl1 ft1 findex) w)
  = exec (add_fuel a b fl2 ft2 findex) w.
Proof.
  intros Hc. split.
  - change (add_technology label ty2 lay2 index)
      with (perform (Technology label ty2 lay2 index)).
    change (add_technology label ty1 lay1 index)
      with (perform (Technology label ty1 lay1 index)).
    set (c1 := Technology label ty1 lay1 index).
    set (c2 := Technology label ty2 lay2 index).
    pose proof (perform_consistent c1 w Hc) as Hc1.
    destruct (plan_technology (structure (self w)) label ty1 lay1 index)
      as [(ps & vs & Hps & Hvs & Hd & Hp1)|(e & Hp1 & Hno)].
    + assert (Hp2 : plan (structure (self w)) c2
                = Ok (AddNode label (technology_attrs ty2 lay2 (default "t" index) ps vs))).
      { subst c2. cbn [plan]. by rewrite Hps, Hvs, technology_kwargs. }
      rewrite (exec_perform_graph c2 (exec (perform c1) w) _)
        by (done || by rewrite perform_structure).
      rewrite (exec_perform_graph c1 w _ Hc Hp1), (exec_perform_graph c2 w _ Hc Hp2).
      rewrite graph_set_base, op_absorbs; [by destruct w as [[? ? ?] ? ?]|done|].
      split; [done|]. apply dom_insert3.
    + by rewrite (exec_perform_raise c1 w e).
  - change (add_fuel a b fl2 ft2 findex) with (perform (Fuel a b fl2 ft2 findex)).
    change (add_fuel a b fl1 ft1 findex) with (perform (Fuel a b fl1 ft1 findex)).
    set (c1 := Fuel a b fl1 ft1 findex).
    set (c2 := Fuel a b fl2 ft2 findex).
    pose proof (perform_consistent c1 w Hc) as Hc1.
    destruct (plan_fuel (structure (self w)) a b fl1 ft1 findex)
      as [(ps & vs & Hps & Hvs & Hd & Hp1)|(e & Hp1 & Hno)].
    + assert (Hp2 : plan (structure (self w)) c2
                = Ok (AddEdge a b (fuel_attrs fl2 ft2 (default "f" findex) ps vs))).
      { subst c2. cbn [plan]. by rewrite Hps, Hvs, fuel_kwargs. }
      rewrite (exec_perform_graph c2 (exec (perform c1) w) _)
        by (done || by rewrite perform_structure).
      rewrite (exec_perform_graph c1 w _ Hc Hp1), (exec_perform_graph c2 w _ Hc Hp2).
      rewrite graph_set_base, op_absorbs; [by destruct w as [[? ? ?] ? ?]|done|].
      split_and!; [done..|]. apply dom_insert3.
    + by rewrite (exec_perform_raise c1 w e).
Qed.

Lemma later_call_absorbs_earlier_witness :
  exec (add_technology "PWRGEO" "Geothermal Power Station" 2 None)
       (exec (add_technology "PWRGEO" "Geothermal Power Plant" 0 None)
             (world_of capacity_skeleton))
  = exec (add_technology "PWRGEO" "Geothermal Power Station" 2 None)
         (world_of capacity_skeleton) ∧
  exec (add_fuel "PWRGEO" "PWRTRN" "ELC009" "Electricity" None)
       (exec (add_fuel "PWRGEO" "PWRTRN" "ELC001" "Electricity before Transmission" None)
             (world_of capacity_skeleton))
  = exec (add_fuel "PWRGEO" "PWRTRN" "ELC009" "Electricity" None)
         (world_of capacity_skeleton).
Proof.
  apply (later_call_absorbs_earlier (world_of capacity_skeleton)
           "PWRGEO" "Geothermal Power Plant" "Geothermal Power Station" 0 2 None
           "PWRGEO" "PWRTRN" "ELC001" "Electricity before Transmission"
           "ELC009" "Electricity" None).
  repeat split.
Defined.
